(** * keras-hub layers: BoxMatcher, MultiSegmentPacker, PaliGemmaBackbone

    A shallow embedding of

    - [keras_hub/src/layers/modeling/box_matcher.py] (class [BoxMatcher]),
    - the behaviour of [MultiSegmentPacker] exercised by
      [keras_hub/src/layers/preprocessing/multi_segment_packer_test.py],
    - the functional model assembled by
      [keras_hub/src/models/pali_gemma/pali_gemma_backbone.py],

    together with the properties stated about them.

    Tensors are nested lists carrying their static shape; the [keras.ops]
    primitives the layers call are given their documented (NumPy) meaning
    on that representation. *)

From Stdlib Require Import String DecimalString List Bool Arith ZArith.
From Stdlib Require Import QArith Qround Qpower Lia Lqa Sorted.
From Stdlib Require DecimalNat.
Import ListNotations.
Close Scope Q_scope.
Open Scope nat_scope.
Open Scope list_scope.

Set Implicit Arguments.

(* ================================================================== *)
(** * Floating-point values as the matcher sees them *)
(* ================================================================== *)

(** The matcher only compares similarity values with each other and with
    the thresholds.  On values that are not NaN an IEEE comparison is the
    comparison of the numbers denoted, so a value is a rational or one of
    the two infinities ([float("inf")] is what [__init__] adds to the
    thresholds).  NaN is not represented: what is stated about the entries
    of a matrix is stated about matrices without NaN.

    The thresholds are Python floats; before comparing, [call] casts them
    to the dtype of the matrix.  [cast] below is that conversion: IEEE
    rounding to the nearest value of the format, ties to even. *)
Module Float.

Inductive t : Type :=
| NInf : t
| Fin (q : Q) : t
| PInf : t.

Definition leb (a b : t) : bool :=
  match a, b with
  | NInf, _ => true
  | _, PInf => true
  | Fin x, Fin y => Qle_bool x y
  | Fin _, NInf => false
  | PInf, _ => false
  end.

(** [a < b]; with no NaN it is the negation of [b <= a]. *)
Definition ltb (a b : t) : bool := negb (leb b a).

(** Python's [==] on floats. *)
Definition eqb (a b : t) : bool := leb a b && leb b a.

Definition opp (a : t) : t :=
  match a with
  | NInf => PInf
  | Fin q => Fin (- q)
  | PInf => NInf
  end.

Definition zero : t := Fin 0.
Definition one : t := Fin 1.

Definition le (a b : t) : Prop := leb a b = true.
Definition lt (a b : t) : Prop := ltb a b = true.

(** The floating-point dtypes of Keras. *)
Inductive dtype : Type :=
| float16
| bfloat16
| float32
| float64.

(** Number of significand bits, the hidden bit included. *)
Definition precision (d : dtype) : Z :=
  match d with
  | float16 => 11
  | bfloat16 => 8
  | float32 => 24
  | float64 => 53
  end.

(** Every finite value of the format is below [2 ^ emax] in magnitude. *)
Definition emax (d : dtype) : Z :=
  match d with
  | float16 => 16
  | bfloat16 => 128
  | float32 => 128
  | float64 => 1024
  end.

(** The exponent of the smallest positive (subnormal) value. *)
Definition emin (d : dtype) : Z := 3 - emax d - precision d.

(** [floor (log2 q)] for [q > 0]. *)
Definition ilog2 (q : Q) : Z :=
  let e := (Z.log2 (Qnum q) - Z.log2 (Z.pos (Qden q)))%Z in
  if Qle_bool (2 ^ e) q then e else (e - 1)%Z.

(** Rounding to the nearest integer, ties to the even one. *)
Definition round_half_even (q : Q) : Z :=
  let f := Qfloor q in
  match (q - inject_Z f ?= 1 # 2)%Q with
  | Lt => f
  | Gt => (f + 1)%Z
  | Eq => if Z.even f then f else (f + 1)%Z
  end.

(** The exponent of the unit in the last place around [q > 0]: the
    significand has [precision d] bits, fewer among the subnormal
    values. *)
Definition ulp_exponent (d : dtype) (q : Q) : Z :=
  Z.max (ilog2 q - (precision d - 1)) (emin d).

(** The multiple of that unit nearest to [q > 0], ties to even. *)
Definition round_pos (d : dtype) (q : Q) : Q :=
  let u := (2 ^ ulp_exponent d q)%Q in
  (inject_Z (round_half_even (q / u)) * u)%Q.

(** The same with the overflow to infinity. *)
Definition cast_pos (d : dtype) (q : Q) : t :=
  let r := round_pos d q in
  if Qle_bool (2 ^ emax d) r then PInf else Fin r.

(** [ops.cast(x, d)] of a Python float [x]. *)
Definition cast (d : dtype) (x : t) : t :=
  match x with
  | Fin q =>
      match (q ?= 0)%Q with
      | Eq => Fin 0
      | Gt => cast_pos d q
      | Lt => opp (cast_pos d (- q))
      end
  | _ => x
  end.

End Float.

(* ================================================================== *)
(** * The tensor primitives used by the layers *)
(* ================================================================== *)

Module ops.

Section Elementwise.
Variables A B C D : Type.

(** Elementwise combination of two equally shaped vectors. *)
Fixpoint zip_with (f : A -> B -> C) (xs : list A) (ys : list B) : list C :=
  match xs, ys with
  | x :: xs', y :: ys' => f x y :: zip_with f xs' ys'
  | _, _ => []
  end.

Fixpoint zip_with3 (f : A -> B -> C -> D)
         (xs : list A) (ys : list B) (zs : list C) : list D :=
  match xs, ys, zs with
  | x :: xs', y :: ys', z :: zs' => f x y z :: zip_with3 f xs' ys' zs'
  | _, _, _ => []
  end.
End Elementwise.

(** [ops.zeros([b, r], "int32")] and [ops.ones([b, r], "int32")]. *)
Definition zeros2 (b r : nat) : list (list Z) := repeat (repeat 0%Z r) b.
Definition ones2 (b r : nat) : list (list Z) := repeat (repeat 1%Z r) b.

(** [ops.ones((b, r, c))], a float tensor. *)
Definition ones3 (b r c : nat) : list (list (list Float.t)) :=
  repeat (repeat (repeat Float.one c) r) b.

(** Unary minus on an int32 matrix and on a float tensor. *)
Definition neg2 (x : list (list Z)) : list (list Z) :=
  map (map Z.opp) x.
Definition neg3 (x : list (list (list Float.t))) : list (list (list Float.t)) :=
  map (map (map Float.opp)) x.

(** Scalar times int32 matrix. *)
Definition scale2 (k : Z) (x : list (list Z)) : list (list Z) :=
  map (map (Z.mul k)) x.

(** [ops.concatenate([x, y], axis=-1)] on rank-3 tensors. *)
Definition concatenate_last (A : Type) (x y : list (list (list A)))
  : list (list (list A)) :=
  zip_with (zip_with (@app A)) x y.

(** Index of the first maximal element and the maximal element of a
    vector, scanning left to right and replacing the running maximum
    only on a strictly larger value. *)
Fixpoint argmax_scan (best_i : nat) (best : Float.t) (i : nat)
         (l : list Float.t) : nat :=
  match l with
  | [] => best_i
  | x :: l' =>
      if Float.ltb best x then argmax_scan i x (S i) l'
      else argmax_scan best_i best (S i) l'
  end.

Definition argmax1 (l : list Float.t) : nat :=
  match l with
  | [] => 0
  | x :: l' => argmax_scan 0 x 1 l'
  end.

Fixpoint max_scan (best : Float.t) (l : list Float.t) : Float.t :=
  match l with
  | [] => best
  | x :: l' => if Float.ltb best x then max_scan x l' else max_scan best l'
  end.

Definition max1 (l : list Float.t) : Float.t :=
  match l with
  | [] => Float.NInf
  | x :: l' => max_scan x l'
  end.

(** Reduction along the last axis of a rank-3 tensor. *)
Definition reduce_last (A B : Type) (f : list A -> B)
           (x : list (list (list A))) : list (list B) :=
  map (map f) x.

(** Reduction along axis 1 of a rank-3 tensor whose last axis has static
    size [n]: entry [j] of every batch element reduces the [j]-th
    components of its rows. *)
Definition column (A : Type) (d : A) (m : list (list A)) (j : nat) : list A :=
  map (fun row => nth j row d) m.

Definition reduce_axis1 (A B : Type) (d : A) (f : list A -> B) (n : nat)
           (x : list (list (list A))) : list (list B) :=
  map (fun m => map (fun j => f (column d m j)) (seq 0 n)) x.

(** [ops.argmax(x, axis=-1)] *)
Definition argmax_last (x : list (list (list Float.t))) : list (list nat) :=
  reduce_last argmax1 x.

(** [ops.max(x, axis=-1)] *)
Definition max_last (x : list (list (list Float.t))) : list (list Float.t) :=
  reduce_last max1 x.

(** [ops.argmax(x, axis=1)] on a tensor of static shape [[b, r, n]].
    Reducing an axis of size zero is an error; the error is NumPy's, a
    [ValueError].  The other backends fail in their own way on a tensor
    with no row, some of them already in the reductions over the last
    axis, so what the model says about a matrix with no row holds for the
    NumPy backend only. *)
Definition argmax_axis1 (r n : nat) (x : list (list (list Float.t)))
  : option (list (list nat)) :=
  if r =? 0 then None
  else Some (reduce_axis1 Float.NInf argmax1 n x).

(** [ops.max(x, axis=1)], same convention. *)
Definition max_axis1 (r n : nat) (x : list (list (list Float.t)))
  : option (list (list Float.t)) :=
  if r =? 0 then None
  else Some (reduce_axis1 Float.NInf max1 n x).

(** [ops.one_hot(x, num_classes)] on an index matrix. *)
Definition one_hot1 (num_classes : nat) (i : nat) : list Float.t :=
  map (fun k => if k =? i then Float.one else Float.zero) (seq 0 num_classes).

Definition one_hot (x : list (list nat)) (num_classes : nat)
  : list (list (list Float.t)) :=
  map (map (one_hot1 num_classes)) x.

(** Elementwise comparisons of a float matrix with a scalar. *)
Definition greater_equal (x : list (list Float.t)) (s : Float.t)
  : list (list bool) :=
  map (map (fun v => Float.leb s v)) x.

Definition less (x : list (list Float.t)) (s : Float.t) : list (list bool) :=
  map (map (fun v => Float.ltb v s)) x.

Definition logical_and (x y : list (list bool)) : list (list bool) :=
  zip_with (zip_with andb) x y.

(** [ops.cast(x, "bool")] of a float matrix: non-zero is true. *)
Definition cast_bool (x : list (list Float.t)) : list (list bool) :=
  map (map (fun v => negb (Float.eqb v Float.zero))) x.

(** [ops.cast(x, "int32")] of a boolean matrix and of an index matrix. *)
Definition cast_int_of_bool (x : list (list bool)) : list (list Z) :=
  map (map (fun b : bool => if b then 1%Z else 0%Z)) x.

Definition cast_int (x : list (list nat)) : list (list Z) :=
  map (map Z.of_nat) x.

(** The integers an int32 tensor holds. *)
Definition int32 (z : Z) : bool :=
  ((- 2 ^ 31 <=? z) && (z <? 2 ^ 31))%Z.

(** [x == 0] on an int32 matrix. *)
Definition equal_zero (x : list (list Z)) : list (list bool) :=
  map (map (fun v => Z.eqb v 0)) x.

(** [ops.where(c, x, y)] on matrices of one shape. *)
Definition where_ (A : Type) (c : list (list bool)) (x y : list (list A))
  : list (list A) :=
  zip_with3 (zip_with3 (fun (b : bool) u v => if b then u else v)) c x y.

(** [ops.where(c, x, s)] with a scalar third argument. *)
Definition where_scalar (A : Type) (c : list (list bool))
           (x : list (list A)) (s : A) : list (list A) :=
  zip_with (zip_with (fun (b : bool) u => if b then u else s)) c x.

(** [ops.expand_dims(x, axis=0)] and [ops.squeeze(x, axis=0)]. *)
Definition expand_dims (A : Type) (x : A) : list A := [x].
Definition squeeze (A : Type) (d : A) (x : list A) : A := hd d x.

End ops.


(* ================================================================== *)
(** * Python results *)
(* ================================================================== *)

(** The exceptions the modelled code can raise. *)
Inductive exn : Type :=
| ImportError
| ValueError
| IndexError.

Inductive result (A : Type) : Type :=
| Ok (a : A)
| Raise (e : exn).

Arguments Ok {A} a.
Arguments Raise {A} e.

Definition bind (A B : Type) (m : result A) (k : A -> result B) : result B :=
  match m with
  | Ok a => k a
  | Raise e => Raise e
  end.

Notation "x <- m ;; k" := (bind m (fun x => k))
  (at level 61, m at next level, right associativity).

(** A framework reduction that fails does so with a [ValueError]. *)
Definition of_option (A : Type) (o : option A) : result A :=
  match o with
  | Some a => Ok a
  | None => Raise ValueError
  end.

(* ================================================================== *)
(** * box_matcher.py *)
(* ================================================================== *)

Module BoxMatcher.

(** The attributes [__init__] stores on the layer. *)
Record t : Type := Build {
  match_values : list Z;
  thresholds : list Float.t;
  force_match_for_each_col : bool
}.

(** Python's [sorted] on a list of floats: a stable ascending sort. *)
Fixpoint insert (x : Float.t) (l : list Float.t) : list Float.t :=
  match l with
  | [] => [x]
  | y :: l' => if Float.leb x y then x :: y :: l' else y :: insert x l'
  end.

Fixpoint sorted (l : list Float.t) : list Float.t :=
  match l with
  | [] => []
  | x :: l' => insert x (sorted l')
  end.

(** Python's [==] on two lists of floats. *)
Fixpoint list_eq (l1 l2 : list Float.t) : bool :=
  match l1, l2 with
  | [], [] => true
  | x :: l1', y :: l2' => Float.eqb x y && list_eq l1' l2'
  | _, _ => false
  end.

Section Init.

(** [assert_bounding_box_support] lives in [utils/tensor_utils.py]: it
    checks the installed Keras and raises when bounding boxes are not
    supported.  Its verdict is a parameter of the model. *)
Variable bounding_box_support : bool.

Definition assert_bounding_box_support : result unit :=
  if bounding_box_support then Ok tt else Raise ImportError.

(** [BoxMatcher.__init__(thresholds, match_values,
    force_match_for_each_col)]. *)
Definition __init__ (thresholds : list Float.t) (match_values : list Z)
           (force_match_for_each_col : bool) : result t :=
  _ <- assert_bounding_box_support ;;
  if negb (list_eq (sorted thresholds) thresholds) then Raise ValueError
  else if negb (length match_values =? length thresholds + 1)
  then Raise ValueError
  else
    let thresholds := Float.NInf :: thresholds in
    let thresholds := thresholds ++ [Float.PInf] in
    Ok (Build match_values thresholds force_match_for_each_col).

End Init.

(** The argument of [call]: a similarity matrix of static shape
    [[num_rows, num_cols]] or [[batch_size, num_rows, num_cols]]. *)
Inductive similarity : Type :=
| Rank2 (num_rows num_cols : nat) (data : list (list Float.t))
| Rank3 (batch_size num_rows num_cols : nat)
        (data : list (list (list Float.t))).

(** The value of [call]: [(matched_columns, matched_values)], of shape
    [[num_rows]] or [[batch_size, num_rows]]. *)
Inductive matches : Type :=
| Matches1 (matched_columns matched_values : list Z)
| Matches2 (matched_columns matched_values : list (list Z)).

(** [_set_values_using_indicator(x, indicator, val)].  [x] is an int32
    tensor and [val] a Python integer, converted to int32 when it is
    written.  For a [val] that [ops.int32] accepts the conversion changes
    nothing, and that is what is modelled; for any other [val] the
    backends disagree (some wrap around, some raise), and what is stated
    about matched values is stated for match values within int32. *)
Definition _set_values_using_indicator (x : list (list Z))
           (indicator : list (list bool)) (val : Z) : list (list Z) :=
  let indicator := ops.cast_int_of_bool indicator in
  ops.where_scalar (ops.equal_zero indicator) x val.

(** [zip(a, b, c)] *)
Definition zip3 (A B C : Type) (a : list A) (b : list B) (c : list C)
  : list (A * B * C) :=
  combine (combine a b) c.

(** [l[-1]] *)
Definition last_item (A : Type) (l : list A) : result A :=
  match rev l with
  | x :: _ => Ok x
  | [] => Raise IndexError
  end.

Section Call.

Variable self : t.
(** [match_dtype], the dtype of [matched_vals]: that of the similarity
    matrix after it was concatenated with the column of [-1]. *)
Variable match_dtype : Float.dtype.
Variables batch_size num_rows num_cols : nat.
Variable similarity_matrix : list (list (list Float.t)).

(** [_match_when_cols_are_empty()] *)
Definition _match_when_cols_are_empty
  : result (list (list Z) * list (list Z)) :=
  let matched_columns := ops.zeros2 batch_size num_rows in
  let matched_values := ops.neg2 (ops.ones2 batch_size num_rows) in
  Ok (matched_columns, matched_values).

(** One turn of the loop over [zip(match_values, thresholds[:-1],
    thresholds[1:])]: the two thresholds are cast to [match_dtype] and
    compared in that dtype. *)
Definition threshold_step (matched_vals : list (list Float.t))
           (matched_values : list (list Z))
           (item : Z * Float.t * Float.t) : list (list Z) :=
  let '(ind, low, high) := item in
  let low_threshold := Float.cast match_dtype low in
  let high_threshold := Float.cast match_dtype high in
  let mask :=
    ops.logical_and (ops.greater_equal matched_vals low_threshold)
                    (ops.less matched_vals high_threshold) in
  _set_values_using_indicator matched_values mask ind.

(** [_match_when_cols_are_non_empty()].  The int32 tensors are matrices
    of integers; [match_values[-1] * ops.ones(..., "int32")] and the
    values written by the loop stay within int32 when the match values
    are. *)
Definition _match_when_cols_are_non_empty
  : result (list (list Z) * list (list Z)) :=
  let padded_similarity_matrix :=
    ops.concatenate_last similarity_matrix
      (ops.neg3 (ops.ones3 batch_size num_rows 1)) in
  let matched_columns := ops.argmax_last padded_similarity_matrix in
  let matched_vals := ops.max_last padded_similarity_matrix in
  let matched_values := ops.zeros2 batch_size num_rows in
  let matched_values :=
    fold_left (threshold_step matched_vals)
      (zip3 (match_values self) (removelast (thresholds self))
            (tl (thresholds self)))
      matched_values in
  if force_match_for_each_col self then
    matching_rows <-
      of_option (ops.argmax_axis1 num_rows (num_cols + 1)
                   padded_similarity_matrix) ;;
    let column_to_row_match_mapping := ops.one_hot matching_rows num_rows in
    force_matched_columns <-
      of_option (ops.argmax_axis1 (num_cols + 1) num_rows
                   column_to_row_match_mapping) ;;
    force_matched_column_max <-
      of_option (ops.max_axis1 (num_cols + 1) num_rows
                   column_to_row_match_mapping) ;;
    let force_matched_column_mask := ops.cast_bool force_matched_column_max in
    let matched_columns :=
      ops.where_ force_matched_column_mask force_matched_columns
                 matched_columns in
    positive <- last_item (match_values self) ;;
    let matched_values :=
      ops.where_ force_matched_column_mask
                 (ops.scale2 positive (ops.ones2 batch_size num_rows))
                 matched_values in
    Ok (ops.cast_int matched_columns, matched_values)
  else
    Ok (ops.cast_int matched_columns, matched_values).

(** The [ops.cond] on [num_boxes > 0]. *)
Definition cond_num_boxes : result (list (list Z) * list (list Z)) :=
  let num_boxes := num_cols in
  if 0 <? num_boxes then _match_when_cols_are_non_empty
  else _match_when_cols_are_empty.

End Call.

(** [BoxMatcher.call(similarity_matrix)], for a similarity matrix whose
    [matched_vals] have dtype [match_dtype]. *)
Definition call (self : t) (match_dtype : Float.dtype)
           (similarity_matrix : similarity) : result matches :=
  match similarity_matrix with
  | Rank2 num_rows num_cols data =>
      let similarity_matrix := ops.expand_dims data in
      let batch_size := 1 in
      r <- cond_num_boxes self match_dtype batch_size num_rows num_cols
                          similarity_matrix ;;
      let '(matched_columns, matched_values) := r in
      Ok (Matches1 (ops.squeeze [] matched_columns)
                   (ops.squeeze [] matched_values))
  | Rank3 batch_size num_rows num_cols data =>
      r <- cond_num_boxes self match_dtype batch_size num_rows num_cols
                          data ;;
      let '(matched_columns, matched_values) := r in
      Ok (Matches2 matched_columns matched_values)
  end.

(** The dictionary returned by [get_config]. *)
Record config : Type := Config {
  config_thresholds : list Float.t;
  config_match_values : list Z;
  config_force_match_for_each_col : bool
}.

(** [l[1:-1]], a new list. *)
Definition inner_slice (A : Type) (l : list A) : list A :=
  removelast (tl l).

(** [BoxMatcher.get_config()] *)
Definition get_config (self : t) : config :=
  Config (inner_slice (thresholds self))
         (match_values self)
         (force_match_for_each_col self).

(** [BoxMatcher.__init__] together with its effect on the list object
    passed as [thresholds]: [insert] and [append] work in place, and the
    layer keeps that same object.  The second component is the content of
    the caller's list when [__init__] is left, by return or by raise. *)
Definition __init__in_place (bounding_box_support : bool)
           (thresholds : list Float.t) (match_values : list Z)
           (force_match_for_each_col : bool)
  : result t * list Float.t :=
  match assert_bounding_box_support bounding_box_support with
  | Raise e => (Raise e, thresholds)
  | Ok _ =>
      if negb (list_eq (sorted thresholds) thresholds)
      then (Raise ValueError, thresholds)
      else if negb (length match_values =? length thresholds + 1)
      then (Raise ValueError, thresholds)
      else
        let thresholds := Float.NInf :: thresholds in
        let thresholds := thresholds ++ [Float.PInf] in
        (Ok (Build match_values thresholds force_match_for_each_col),
         thresholds)
  end.

End BoxMatcher.

(* ================================================================== *)
(** * MultiSegmentPacker *)
(* ================================================================== *)

(** [layers/preprocessing/multi_segment_packer.py] is not among the
    sources; only its test-suite is.  The layer is modelled from the
    statements made about it and from the expectations of
    [multi_segment_packer_test.py], which the model reproduces (see the
    examples in [PackerProofs]). *)
Module MultiSegmentPacker.

(** Modelled from the spec: the values of the [truncate] argument of the
    missing [MultiSegmentPacker]. *)
Inductive truncator : Type :=
| round_robin
| waterfall.

(** Modelled from the spec: the values of the [padding_side] argument of
    the missing [MultiSegmentPacker]. *)
Inductive side : Type :=
| left
| right.

Section Packer.

(** The token type: integer ids or strings. *)
Variable T : Type.

(** Modelled from the spec: a special value of the missing
    [MultiSegmentPacker] is given as one token or as a list of tokens. *)
Inductive special : Type :=
| One (v : T)
| Many (vs : list T).

(** Modelled from the spec: the tokens a special value of the missing
    [MultiSegmentPacker] stands for. *)
Definition tokens_of (s : special) : list T :=
  match s with
  | One v => [v]
  | Many vs => vs
  end.

(** Modelled from the spec: the configuration of the missing
    [MultiSegmentPacker]. *)
Record t : Type := Build {
  sequence_length : nat;
  start_value : list T;
  sep_value : list T;
  end_value : list T;
  pad_value : T;
  truncate : truncator;
  padding_side : side
}.

(** Modelled from the spec: the missing [MultiSegmentPacker.__init__],
    with the keyword arguments the test-suite uses: [sep_value] defaults
    to [end_value], [truncate] to ["round_robin"] and [padding_side] to
    ["right"]. *)
Definition __init__ (sequence_length : nat) (start_value end_value : special)
           (sep_value : option special) (pad_value : T)
           (truncate : option truncator) (padding_side : option side) : t :=
  Build sequence_length
        (tokens_of start_value)
        (match sep_value with
         | Some s => tokens_of s
         | None => tokens_of end_value
         end)
        (tokens_of end_value)
        pad_value
        (match truncate with Some m => m | None => round_robin end)
        (match padding_side with Some s => s | None => right end).

(** Modelled from the spec: the missing waterfall trimmer spends the
    budget on the segments in order. *)
Fixpoint waterfall_trim (budget : nat) (segments : list (list T))
  : list (list T) :=
  match segments with
  | [] => []
  | s :: rest =>
      let k := Nat.min budget (length s) in
      firstn k s :: waterfall_trim (budget - k) rest
  end.

(** Modelled from the spec: the missing round-robin trimmer hands out
    the budget one token at a time, visiting the segments in order and
    skipping the exhausted ones.  A segment is tracked as
    [(length, kept)]; this is one visit of all segments. *)
Fixpoint round_robin_pass (budget : nat) (segs : list (nat * nat))
  : nat * list (nat * nat) :=
  match segs with
  | [] => (budget, [])
  | (len, kept) :: rest =>
      match budget with
      | S budget' =>
          if kept <? len then
            let '(b, rest') := round_robin_pass budget' rest in
            (b, (len, S kept) :: rest')
          else
            let '(b, rest') := round_robin_pass budget rest in
            (b, (len, kept) :: rest')
      | 0 => (0, (len, kept) :: rest)
      end
  end.

(** Modelled from the spec: the visits of the missing round-robin trimmer
    are repeated until one of them hands out nothing; every other visit
    spends at least one token, so [fuel = budget] visits are enough. *)
Fixpoint round_robin_loop (fuel budget : nat) (segs : list (nat * nat))
  : list (nat * nat) :=
  match fuel with
  | 0 => segs
  | S fuel' =>
      let '(b, segs') := round_robin_pass budget segs in
      if b =? budget then segs'
      else round_robin_loop fuel' b segs'
  end.

(** Modelled from the spec: the number of tokens the missing round-robin
    trimmer keeps of segments of the given lengths. *)
Definition round_robin_kept (budget : nat) (lens : list nat) : list nat :=
  map snd (round_robin_loop budget budget (map (fun n => (n, 0)) lens)).

(** Modelled from the spec: the missing round-robin trimmer keeps a
    prefix of every segment. *)
Definition round_robin_trim (budget : nat) (segments : list (list T))
  : list (list T) :=
  ops.zip_with (@firstn T) (round_robin_kept budget (map (@length T) segments))
               segments.

Section Call.

Variable self : t.

(** Modelled from the spec: the number of start, separator and end
    tokens the missing packer puts around [n] segments. *)
Definition num_special_tokens (n : nat) : nat :=
  length (start_value self) + (n - 1) * length (sep_value self)
  + length (end_value self).

(** Modelled from the spec: the missing [_trim_inputs] leaves the
    special tokens their room. *)
Definition _trim_inputs (inputs : list (list T)) : list (list T) :=
  let budget := sequence_length self - num_special_tokens (length inputs) in
  match truncate self with
  | round_robin => round_robin_trim budget inputs
  | waterfall => waterfall_trim budget inputs
  end.

(** Modelled from the spec: in the missing [_combine_inputs] every
    segment but the last is followed by the separator, the last by the end
    value; the closing tokens carry the id of the segment they close. *)
Fixpoint combine_from (i : nat) (segments : list (list T))
  : list T * list Z :=
  match segments with
  | [] => ([], [])
  | [s] =>
      (s ++ end_value self,
       repeat (Z.of_nat i) (length s + length (end_value self)))
  | s :: rest =>
      let '(toks, ids) := combine_from (S i) rest in
      (s ++ sep_value self ++ toks,
       repeat (Z.of_nat i) (length s + length (sep_value self)) ++ ids)
  end.

(** Modelled from the spec: the missing [_combine_inputs] puts the start
    value, with segment id 0, in front. *)
Definition _combine_inputs (segments : list (list T)) : list T * list Z :=
  let '(toks, ids) := combine_from 0 segments in
  (start_value self ++ toks, repeat 0%Z (length (start_value self)) ++ ids).

(** Modelled from the spec: the missing conversion of one row to the
    dense length [n], cutting or filling at the right end. *)
Definition to_dense (A : Type) (n : nat) (default_value : A) (x : list A)
  : list A :=
  firstn n x ++ repeat default_value (n - length x).

(** Modelled from the spec: the missing [pad] helper; left padding is
    right padding of the reversed row. *)
Definition pad (A : Type) (x : list A) (n : nat) (padding_side : side)
           (pad_value : A) : list A :=
  match padding_side with
  | right => to_dense n pad_value x
  | left => rev (to_dense n pad_value (rev x))
  end.

(** Modelled from the spec: what the missing [call] does with one
    example, given as its segments. *)
Definition pack_example (inputs : list (list T)) : list T * list Z :=
  let segments := _trim_inputs inputs in
  let '(token_ids, segment_ids) := _combine_inputs segments in
  (pad token_ids (sequence_length self) (padding_side self) (pad_value self),
   pad segment_ids (sequence_length self) (padding_side self) 0%Z).

(** Modelled from the spec: the inputs the missing [call] accepts, one
    sequence or a non-empty tuple of segment sequences, each either
    unbatched or batched. *)
Inductive input : Type :=
| Single (x : list T)
| SingleBatch (x : list (list T))
| Segments (x : list T) (more : list (list T))
| SegmentsBatch (x : list (list T)) (more : list (list (list T))).

(** Modelled from the spec: the value of the missing [call],
    [(token_ids, segment_ids)]. *)
Inductive output : Type :=
| Unbatched (token_ids : list T) (segment_ids : list Z)
| Batched (token_ids : list (list T)) (segment_ids : list (list Z)).

(** Modelled from the spec: example [b] of a tuple of batched segments
    given to the missing [call]. *)
Definition example_at (segments : list (list (list T))) (b : nat)
  : list (list T) :=
  map (fun seg => nth b seg []) segments.

(** Modelled from the spec: the missing [call] packs the examples of a
    batch one by one. *)
Definition pack_batch (segments : list (list (list T))) (batch_size : nat)
  : output :=
  let rows := map (fun b => pack_example (example_at segments b))
                  (seq 0 batch_size) in
  Batched (map fst rows) (map snd rows).

(** Modelled from the spec: the missing
    [MultiSegmentPacker.call(inputs)]. *)
Definition call (inputs : input) : output :=
  match inputs with
  | Single x =>
      let '(token_ids, segment_ids) := pack_example [x] in
      Unbatched token_ids segment_ids
  | Segments x more =>
      let '(token_ids, segment_ids) := pack_example (x :: more) in
      Unbatched token_ids segment_ids
  | SingleBatch x => pack_batch [x] (length x)
  | SegmentsBatch x more => pack_batch (x :: more) (length x)
  end.

End Call.
End Packer.

End MultiSegmentPacker.

(* ================================================================== *)
(** * pali_gemma_backbone.py *)
(* ================================================================== *)

Module PaliGemmaBackbone.

(** [f"decoder_block_{i}"] *)
Definition decoder_block_name (i : nat) : string :=
  String.append "decoder_block_" (NilEmpty.string_of_uint (Nat.to_uint i)).

Section Backbone.

(** Floating-point hyperparameters, dtype policies and activations are
    passed through to the layers untouched. *)
Variables real dtype_policy activation : Type.

(** The constructor's arguments. *)
Record hyperparameters : Type := Hyper {
  vocabulary_size : nat;
  image_size : nat;
  num_layers : nat;
  num_query_heads : nat;
  num_key_value_heads : nat;
  hidden_dim : nat;
  intermediate_dim : nat;
  head_dim : nat;
  vit_patch_size : nat;
  vit_num_heads : nat;
  vit_hidden_dim : nat;
  vit_num_layers : nat;
  vit_intermediate_dim : option nat;
  vit_pooling : option string;
  vit_classifier_activation : option activation;
  vit_name : option string;
  query_head_dim_normalize : bool;
  use_post_ffw_norm : bool;
  use_post_attention_norm : bool;
  attention_logit_soft_cap : option nat;
  final_logit_soft_cap : option nat;
  use_sliding_window_attention : bool;
  sliding_window_size : nat;
  layer_norm_epsilon : real;
  dropout : real;
  dtype : option dtype_policy
}.

(** The keyword arguments each sub-layer is constructed with. *)
Record embedding_args : Type := EmbeddingArgs {
  emb_input_dim : nat;
  emb_output_dim : nat;
  emb_tie_weights : bool;
  emb_dtype : option dtype_policy;
  emb_logit_soft_cap : option nat;
  emb_name : string
}.

Record vit_args : Type := VitArgs {
  v_image_size : nat;
  v_patch_size : nat;
  v_num_heads : nat;
  v_hidden_dim : nat;
  v_num_layers : nat;
  v_intermediate_dim : nat;
  v_pooling : option string;
  v_num_classes : nat;
  v_classifier_activation : option activation;
  v_dtype : option dtype_policy;
  v_name : option string
}.

Record decoder_block_args : Type := DecoderBlockArgs {
  d_hidden_dim : nat;
  d_intermediate_dim : nat;
  d_head_dim : nat;
  d_num_query_heads : nat;
  d_num_key_value_heads : nat;
  d_query_head_dim_normalize : bool;
  d_use_post_ffw_norm : bool;
  d_use_post_attention_norm : bool;
  d_logit_soft_cap : option nat;
  d_use_sliding_window_attention : bool;
  d_sliding_window_size : nat;
  d_dropout : real;
  d_dtype : option dtype_policy;
  d_name : string
}.

Record rms_args : Type := RmsArgs {
  r_epsilon : real;
  r_dtype : option dtype_policy;
  r_name : string
}.

(** The framework side: tensors, the four layer classes as functions of
    their constructor arguments, and the three [keras.ops] calls. *)
Variables images token_ids mask tensor scalar : Type.
Variable ReversibleEmbedding : embedding_args -> token_ids -> tensor.
Variable PaliGemmaVit : vit_args -> images -> tensor.
Variable PaliGemmaDecoderBlock :
  decoder_block_args -> tensor -> mask -> mask -> tensor.
Variable RMSNormalization : rms_args -> tensor -> tensor.
Variable ops_sqrt : nat -> scalar.
Variable ops_multiply : tensor -> scalar -> tensor.
Variable ops_concatenate_axis1 : tensor -> tensor -> tensor.

(** The layers [__init__] stores on the model. *)
Record t : Type := Build {
  token_embedding : embedding_args;
  vit_encoder : vit_args;
  transformer_layers : list decoder_block_args;
  layer_norm : rms_args
}.

(** [x or y] on an optional integer. *)
Definition or_default (x : option nat) (y : nat) : nat :=
  match x with
  | Some 0 => y
  | Some n => n
  | None => y
  end.

Section Init.

Variable hp : hyperparameters.

(** The body of [for i in range(num_layers)]. *)
Definition make_layer (i : nat) : decoder_block_args :=
  let sliding_window :=
    use_sliding_window_attention hp && (i mod 2 =? 0) in
  DecoderBlockArgs (hidden_dim hp) (intermediate_dim hp) (head_dim hp)
    (num_query_heads hp) (num_key_value_heads hp)
    (query_head_dim_normalize hp) (use_post_ffw_norm hp)
    (use_post_attention_norm hp) (attention_logit_soft_cap hp)
    sliding_window (sliding_window_size hp) (dropout hp) (dtype hp)
    (decoder_block_name i).

(** [PaliGemmaBackbone.__init__], section "Layers". *)
Definition __init__ : t :=
  let token_embedding :=
    EmbeddingArgs (vocabulary_size hp) (hidden_dim hp) true (dtype hp)
                  (final_logit_soft_cap hp) "token_embedding" in
  let vit_intermediate_dim := or_default (vit_intermediate_dim hp) 4304 in
  let vit_encoder :=
    VitArgs (image_size hp) (vit_patch_size hp) (vit_num_heads hp)
            (vit_hidden_dim hp) (vit_num_layers hp) vit_intermediate_dim
            (vit_pooling hp) (hidden_dim hp) (vit_classifier_activation hp)
            (dtype hp) (vit_name hp) in
  let transformer_layers :=
    fold_left (fun layers i => layers ++ [make_layer i])
              (seq 0 (num_layers hp)) [] in
  let layer_norm :=
    RmsArgs (layer_norm_epsilon hp) (dtype hp) "final_normalization" in
  Build token_embedding vit_encoder transformer_layers layer_norm.

(** [PaliGemmaBackbone.__init__], section "Functional Model": the
    output of the model as a function of its four inputs. *)
Definition functional_model (self : t) (image_input : images)
           (token_id_input : token_ids)
           (padding_mask_input response_mask_input : mask) : tensor :=
  let img_embeddings := PaliGemmaVit (vit_encoder self) image_input in
  let text_embeddings :=
    ReversibleEmbedding (token_embedding self) token_id_input in
  let text_embeddings :=
    ops_multiply text_embeddings (ops_sqrt (hidden_dim hp)) in
  let x := ops_concatenate_axis1 img_embeddings text_embeddings in
  let x :=
    fold_left
      (fun x transformer_layer =>
         PaliGemmaDecoderBlock transformer_layer x
                               padding_mask_input response_mask_input)
      (transformer_layers self) x in
  let sequence_output := RMSNormalization (layer_norm self) x in
  sequence_output.

Definition model := functional_model __init__.

(** The stack of the first [n] decoder blocks, written as a
    composition. *)
Fixpoint decoder_stack (n : nat) (padding_mask response_mask : mask)
         (x : tensor) : tensor :=
  match n with
  | 0 => x
  | S k =>
      PaliGemmaDecoderBlock (make_layer k)
        (decoder_stack k padding_mask response_mask x)
        padding_mask response_mask
  end.

(** [PaliGemmaBackbone.get_config()], as the keyword arguments a
    constructor call on the dictionary receives.  The 25 keys this class
    writes are read from the attributes stored in the section "Config" of
    [__init__]: the constructor's arguments, except that
    [vit_intermediate_dim] was rebound to its default before it was
    stored.  [dtype] is not one of them: the constructor receives the
    [dtype] entry of [super().get_config()] when the base class wrote
    one, and its default [None] otherwise; that is the parameter
    [super_dtype]. *)
Definition get_config (super_dtype : option dtype_policy)
  : hyperparameters :=
  Hyper (vocabulary_size hp) (image_size hp) (num_layers hp)
        (num_query_heads hp) (num_key_value_heads hp) (hidden_dim hp)
        (intermediate_dim hp) (head_dim hp) (vit_patch_size hp)
        (vit_num_heads hp) (vit_hidden_dim hp) (vit_num_layers hp)
        (Some (or_default (vit_intermediate_dim hp) 4304))
        (vit_pooling hp) (vit_classifier_activation hp) (vit_name hp)
        (query_head_dim_normalize hp) (use_post_ffw_norm hp)
        (use_post_attention_norm hp) (attention_logit_soft_cap hp)
        (final_logit_soft_cap hp) (use_sliding_window_attention hp)
        (sliding_window_size hp) (layer_norm_epsilon hp) (dropout hp)
        super_dtype.

(** The constructor's arguments with another [dtype], to say what a
    model built from a configuration is. *)
Definition with_dtype (d : option dtype_policy) : hyperparameters :=
  Hyper (vocabulary_size hp) (image_size hp) (num_layers hp)
        (num_query_heads hp) (num_key_value_heads hp) (hidden_dim hp)
        (intermediate_dim hp) (head_dim hp) (vit_patch_size hp)
        (vit_num_heads hp) (vit_hidden_dim hp) (vit_num_layers hp)
        (vit_intermediate_dim hp)
        (vit_pooling hp) (vit_classifier_activation hp) (vit_name hp)
        (query_head_dim_normalize hp) (use_post_ffw_norm hp)
        (use_post_attention_norm hp) (attention_logit_soft_cap hp)
        (final_logit_soft_cap hp) (use_sliding_window_attention hp)
        (sliding_window_size hp) (layer_norm_epsilon hp) (dropout hp)
        d.

End Init.
End Backbone.

End PaliGemmaBackbone.

(* ================================================================== *)
(** * Specification vocabulary *)
(* ================================================================== *)

Module MatcherSpec.
Import BoxMatcher.

(** The static shape agrees with the data. *)
Definition matrix_shape_ok (num_rows num_cols : nat)
           (m : list (list Float.t)) : bool :=
  (length m =? num_rows) && forallb (fun row => length row =? num_cols) m.

(** The same for the argument of [call], of either rank. *)
Definition shape_ok (s : similarity) : bool :=
  match s with
  | Rank2 r c m => matrix_shape_ok r c m
  | Rank3 b r c data =>
      (length data =? b) && forallb (matrix_shape_ok r c) data
  end.

(** Every entry lies in [[0, 1]]. *)
Definition in_unit (v : Float.t) : bool :=
  Float.leb Float.zero v && Float.leb v Float.one.

(** The same for all entries of a similarity matrix. *)
Definition unit_entries (s : similarity) : bool :=
  match s with
  | Rank2 _ _ m => forallb (forallb in_unit) m
  | Rank3 _ _ _ data => forallb (forallb (forallb in_unit)) data
  end.

(** [num_cols] of the static shape. *)
Definition num_cols_of (s : similarity) : nat :=
  match s with
  | Rank2 _ c _ => c
  | Rank3 _ _ c _ => c
  end.

(** [c] is the index of a column holding a largest entry of [row]. *)
Definition attains_row_max (row : list Float.t) (c : Z) : Prop :=
  (0 <= c)%Z /\ Z.to_nat c < length row /\
  forall x, In x row -> Float.le x (nth (Z.to_nat c) row Float.NInf).

(** [m] is the largest entry of [row]. *)
Definition row_max (row : list Float.t) (m : Float.t) : Prop :=
  In m row /\ forall x, In x row -> Float.le x m.

(** [v] lies in the [k]-th interval [[thr[k], thr[k+1])]. *)
Definition in_interval (thr : list Float.t) (k : nat) (v : Float.t) : Prop :=
  k + 1 < length thr /\
  Float.le (nth k thr Float.NInf) v /\
  Float.lt v (nth (k + 1) thr Float.PInf).

(** The thresholds of a layer as the loop of [call] compares with them:
    each cast to [match_dtype]. *)
Definition cast_thresholds (dt : Float.dtype) (self : t) : list Float.t :=
  map (Float.cast dt) (thresholds self).

(** The row has a maximum, and [y] is the match value of the one
    interval of the cast thresholds holding it. *)
Definition classified (dt : Float.dtype) (self : t) (row : list Float.t)
           (y : Z) : Prop :=
  (exists m, row_max row m) /\
  forall m, row_max row m ->
    exists k,
      k < length (match_values self) /\
      in_interval (cast_thresholds dt self) k m /\
      y = nth k (match_values self) 0%Z /\
      forall k', in_interval (cast_thresholds dt self) k' m -> k' = k.

(** Every match value of the layer fits the int32 tensor it is written
    to. *)
Definition int32_values (self : t) : bool :=
  forallb ops.int32 (match_values self).

(** A property of every (row, matched column) pair and of every
    (row, matched value) pair of a call. *)
Definition rowwise (P Q : list Float.t -> Z -> Prop)
           (s : similarity) (o : matches) : Prop :=
  match s, o with
  | Rank2 _ _ m, Matches1 cols vals => Forall2 P m cols /\ Forall2 Q m vals
  | Rank3 _ _ _ data, Matches2 cols vals =>
      Forall2 (Forall2 P) data cols /\ Forall2 (Forall2 Q) data vals
  | _, _ => False
  end.

(** No constraint on a (row, entry) pair. *)
Definition any_value (row : list Float.t) (y : Z) : Prop := True.

(** Batch element [b] of a batched result. *)
Definition batch_item (b : nat) (o : matches) : result matches :=
  match o with
  | Matches2 cols vals => Ok (Matches1 (nth b cols []) (nth b vals []))
  | Matches1 _ _ => Raise IndexError
  end.

(** The value a loop over triples [(ind, low, high)] leaves for one row
    maximum, [low] and [high] being compared with as they are. *)
Definition classify (items : list (Z * Float.t * Float.t)) (v : Float.t)
           (start : Z) : Z :=
  fold_left (fun acc (item : Z * Float.t * Float.t) =>
               let '(ind, low, high) := item in
               if Float.leb low v && Float.ltb v high then ind else acc)
            items start.

(** A row with the [-1] the code adds at its end. *)
Definition pad_row (row : list Float.t) : list Float.t :=
  row ++ [Float.opp Float.one].

(** A triple of the threshold loop with its two thresholds cast. *)
Definition cast_item (dt : Float.dtype) (item : Z * Float.t * Float.t)
  : Z * Float.t * Float.t :=
  let '(ind, low, high) := item in
  (ind, Float.cast dt low, Float.cast dt high).

(** The triples the threshold loop of a layer runs over, with the
    thresholds as they are compared with. *)
Definition items_of (dt : Float.dtype) (self : t)
  : list (Z * Float.t * Float.t) :=
  map (cast_item dt)
      (zip3 (match_values self) (removelast (thresholds self))
            (tl (thresholds self))).

(** The column the code computes for one row when no match is forced. *)
Definition row_column (row : list Float.t) : Z :=
  Z.of_nat (ops.argmax1 (pad_row row)).

(** The value the code computes for one row when no match is forced. *)
Definition row_value (dt : Float.dtype) (self : t) (row : list Float.t) : Z :=
  classify (items_of dt self) (ops.max1 (pad_row row)) 0%Z.

(** The mask of one turn of the threshold loop, for one value. *)
Definition hit (v : Float.t) (item : Z * Float.t * Float.t) : bool :=
  let '(_, low, high) := item in Float.leb low v && Float.ltb v high.

(** Default triple for indexing the loop items. *)
Definition no_item : Z * Float.t * Float.t := (0%Z, Float.NInf, Float.PInf).

(** [n / 10], for the examples. *)
Definition tenth (n : Z) : Float.t := Float.Fin (n # 10).

(** What [call] raises is decided by the layer and the static shape. *)
Definition static_error (self : t) (R C : nat) : option exn :=
  if 0 <? C then
    if force_match_for_each_col self then
      if R =? 0 then Some ValueError
      else match last_item (match_values self) with
           | Raise e => Some e
           | Ok _ => None
           end
    else None
  else None.

(** The row [ops.argmax(padded_similarity_matrix, axis=1)] picks for
    column [j] of one matrix. *)
Definition best_row (m : list (list Float.t)) (j : nat) : nat :=
  ops.argmax1 (ops.column Float.NInf (map pad_row m) j).

(** [column_to_row_match_mapping] of one matrix of static shape
    [[R, C]]. *)
Definition match_mapping (R C : nat) (m : list (list Float.t))
  : list (list Float.t) :=
  map (ops.one_hot1 R) (map (best_row m) (seq 0 (C + 1))).

(** [force_matched_columns] and [force_matched_column_mask] at row [i]
    of one matrix. *)
Definition forced_column (R C : nat) (m : list (list Float.t)) (i : nat)
  : nat :=
  ops.argmax1 (ops.column Float.NInf (match_mapping R C m) i).

Definition forced_mask (R C : nat) (m : list (list Float.t)) (i : nat)
  : bool :=
  negb (Float.eqb (ops.max1 (ops.column Float.NInf (match_mapping R C m) i))
                  Float.zero).

(** A property of every matrix of the input together with its matched
    columns and matched values. *)
Definition per_matrix
           (P : list (list Float.t) -> list Z -> list Z -> Prop)
           (s : similarity) (o : matches) : Prop :=
  match s, o with
  | Rank2 _ _ m, Matches1 cols vals => P m cols vals
  | Rank3 _ _ _ data, Matches2 cols vals =>
      length cols = length data /\ length vals = length data /\
      forall b, b < length data ->
        P (nth b data []) (nth b cols []) (nth b vals [])
  | _, _ => False
  end.

(** Entry [(i, c)] of a matrix. *)
Definition entry (m : list (list Float.t)) (i c : nat) : Float.t :=
  nth c (nth i m []) Float.NInf.

(** [c] is the first index holding a largest entry of [row]. *)
Definition first_row_max (row : list Float.t) (c : Z) : Prop :=
  attains_row_max row c /\
  forall j, j < Z.to_nat c ->
    Float.lt (nth j row Float.NInf) (nth (Z.to_nat c) row Float.NInf).

(** [num_rows] of the static shape. *)
Definition num_rows_of (s : similarity) : nat :=
  match s with
  | Rank2 r _ _ => r
  | Rank3 _ r _ _ => r
  end.

(** [batch_size] of the static shape, one for a rank-2 input. *)
Definition batch_size_of (s : similarity) : nat :=
  match s with
  | Rank2 _ _ _ => 1
  | Rank3 b _ _ _ => b
  end.

(** An entry of a one-hot row. *)
Definition bit (b : bool) : Float.t := if b then Float.one else Float.zero.

End MatcherSpec.


Module PackerSpec.
Import MultiSegmentPacker.

(** Total of a list of lengths. *)
Definition total (l : list nat) : nat := fold_right Nat.add 0 l.

Section Vocabulary.
Variable T : Type.

(** The examples of an input, each as its list of segments. *)
Definition examples (i : input T) : list (list (list T)) :=
  match i with
  | Single x => [[x]]
  | Segments x more => [x :: more]
  | SingleBatch x => map (fun b => example_at [x] b) (seq 0 (length x))
  | SegmentsBatch x more =>
      map (fun b => example_at (x :: more) b) (seq 0 (length x))
  end.

(** The rows of an output, each as [(token_ids, segment_ids)]. *)
Definition rows (o : output T) : list (list T * list Z) :=
  match o with
  | Unbatched t s => [(t, s)]
  | Batched ts ss => combine ts ss
  end.

(** [y] is [x] with [n] copies of [v] on the given side. *)
Definition pad_with (A : Type) (s : side) (v : A) (n : nat) (x : list A)
  : list A :=
  match s with
  | right => x ++ repeat v n
  | left => repeat v n ++ x
  end.

(** Start, separator and end tokens plus the tokens of the segments. *)
Definition packed_length (self : t T) (segments : list (list T)) : nat :=
  num_special_tokens self (length segments)
  + total (map (@length T) segments).

(** [k] is an initial part of [s]. *)
Definition is_prefix (k s : list T) : Prop := k = firstn (length k) s.

End Vocabulary.

(** Bookkeeping of the round-robin allocation: tokens handed out so far,
    no segment over-served, every segment served in full. *)
Definition kept_total (segs : list (nat * nat)) : nat := total (map snd segs).

Definition within (segs : list (nat * nat)) : Prop :=
  Forall (fun p => snd p <= fst p) segs.

Definition exhausted (segs : list (nat * nat)) : Prop :=
  Forall (fun p => fst p <= snd p) segs.

(** Two segments: the first is never behind, and at most one token
    ahead, while both still have tokens; at the start of a pass it is
    not ahead at all. *)
Definition balanced_final (l1 l2 k1 k2 : nat) : Prop :=
  (k1 < l1 -> k2 <= k1) /\ (k2 < l2 -> k1 <= k2 + 1).

Definition balanced_start (l1 l2 k1 k2 : nat) : Prop :=
  (k1 < l1 -> k2 <= k1) /\ (k2 < l2 -> k1 <= k2).

Section Rows.
Variable T : Type.
Variable self : t T.

(** What one output row holds, given the example it was packed from. *)
Definition packed_as (ex : list (list T)) (r : list T * list Z) : Prop :=
  let n := packed_length self ex in
  (n <= sequence_length self ->
   r = (pad_with (padding_side self) (pad_value self)
                 (sequence_length self - n) (fst (_combine_inputs self ex)),
        pad_with (padding_side self) 0%Z
                 (sequence_length self - n) (snd (_combine_inputs self ex))))
  /\ (sequence_length self < n ->
      num_special_tokens self (length ex) <= sequence_length self ->
      exists kept,
        Forall2 (@is_prefix T) kept ex
        /\ total (map (@length T) kept)
           = sequence_length self - num_special_tokens self (length ex)
        /\ r = _combine_inputs self kept).

(** The layout of one packed pair: special tokens around the kept
    prefixes, the padding on the configured side. *)
Definition pair_packed_as (ex : list (list T)) (r : list T * list Z) : Prop :=
  exists x y k1 k2,
    ex = [x; y]
    /\ _trim_inputs self ex = [k1; k2]
    /\ is_prefix k1 x /\ is_prefix k2 y
    /\ num_special_tokens self 2 + length k1 + length k2
       <= sequence_length self
    /\ let p := sequence_length self
                - (num_special_tokens self 2 + length k1 + length k2) in
       fst r = pad_with (padding_side self) (pad_value self) p
                 (start_value self ++ k1 ++ sep_value self
                    ++ k2 ++ end_value self)
       /\ snd r = pad_with (padding_side self) 0%Z p
                    (repeat 0%Z (length (start_value self) + length k1
                                 + length (sep_value self))
                     ++ repeat 1%Z (length k2 + length (end_value self))).

End Rows.

End PackerSpec.


(* ================================================================== *)
(** * The order on values *)
(* ================================================================== *)

Section FloatOrder.

Lemma float_leb_refl (a : Float.t) : Float.leb a a = true.
Proof.
  destruct a; simpl; auto.
  apply Qle_bool_iff, Qle_refl.
Qed.

Lemma float_leb_trans (a b c : Float.t) :
  Float.leb a b = true -> Float.leb b c = true -> Float.leb a c = true.
Proof.
  destruct a, b, c; simpl; auto; try discriminate.
  rewrite !Qle_bool_iff. apply Qle_trans.
Qed.

Lemma float_leb_total (a b : Float.t) :
  Float.leb a b = true \/ Float.leb b a = true.
Proof.
  destruct a, b; simpl; auto.
  rewrite !Qle_bool_iff.
  destruct (Qlt_le_dec q q0) as [H | H];
    [left; apply Qlt_le_weak, H | right; exact H].
Qed.

Lemma float_ltb_leb (a b : Float.t) :
  Float.ltb a b = true -> Float.leb a b = true.
Proof.
  unfold Float.ltb. intros H.
  destruct (float_leb_total a b) as [Hab | Hba]; auto.
  rewrite Hba in H. discriminate.
Qed.

Lemma float_ltb_false (a b : Float.t) :
  Float.ltb a b = false -> Float.leb b a = true.
Proof.
  unfold Float.ltb. intros H. apply negb_false_iff in H. exact H.
Qed.

Lemma float_lt_le_absurd (a b : Float.t) :
  Float.ltb a b = true -> Float.leb b a = true -> False.
Proof.
  unfold Float.ltb. intros H1 H2. rewrite H2 in H1. discriminate.
Qed.

Lemma float_eqb_refl (a : Float.t) : Float.eqb a a = true.
Proof. unfold Float.eqb. now rewrite float_leb_refl. Qed.

End FloatOrder.

Create HintDb floats.

#[local] Hint Resolve float_leb_refl float_leb_trans float_ltb_leb
  float_ltb_false : floats.

(* ================================================================== *)
(** * The cast of a threshold to the dtype of the matrix *)
(* ================================================================== *)

Section Rounding.
Open Scope Q_scope.
#[local] Unset Implicit Arguments.

Lemma two_power_pos (e : Z) : 0 < 2 ^ e.
Proof. apply Qpower_0_lt. reflexivity. Qed.

Lemma two_power_le (a b : Z) : (a <= b)%Z -> 2 ^ a <= 2 ^ b.
Proof. intros H. apply Qpower_le_compat_l; [exact H | discriminate]. Qed.

Lemma two_power_integer (e : Z) :
  (0 <= e)%Z -> 2 ^ e == inject_Z (2 ^ e).
Proof. intros H. symmetry. now apply (Zpower_Qpower 2 e). Qed.

Lemma two_power_split (a b : Z) : 2 ^ a == 2 ^ (a - b) * 2 ^ b.
Proof.
  rewrite <- Qpower_plus by discriminate.
  now replace (a - b + b)%Z with a by lia.
Qed.

Lemma round_half_even_integer (z : Z) :
  Float.round_half_even (inject_Z z) = z.
Proof.
  unfold Float.round_half_even. rewrite Qfloor_Z.
  assert (H : (inject_Z z - inject_Z z ?= 1 # 2) = Lt).
  { apply (proj1 (Qlt_alt _ _)). generalize (inject_Z z). intros x. lra. }
  now rewrite H.
Qed.

Lemma round_half_even_bounds (q : Q) :
  (Qfloor q <= Float.round_half_even q <= Qfloor q + 1)%Z.
Proof.
  unfold Float.round_half_even.
  destruct (q - inject_Z (Qfloor q) ?= 1 # 2); [destruct (Z.even _) | |]; lia.
Qed.

Lemma round_half_even_monotone (a b : Q) :
  a <= b -> (Float.round_half_even a <= Float.round_half_even b)%Z.
Proof.
  intros Hab.
  pose proof (Qfloor_resp_le _ _ Hab) as Hf.
  destruct (Z.eq_dec (Qfloor a) (Qfloor b)) as [E | E].
  - unfold Float.round_half_even. rewrite <- E.
    set (f := Qfloor a) in *.
    destruct (a - inject_Z f ?= 1 # 2) eqn:Ea;
      destruct (b - inject_Z f ?= 1 # 2) eqn:Eb;
      try (destruct (Z.even f)); try lia;
      try apply (proj2 (Qeq_alt _ _)) in Ea;
      try apply (proj2 (Qlt_alt _ _)) in Ea;
      try apply (proj2 (Qgt_alt _ _)) in Ea;
      try apply (proj2 (Qeq_alt _ _)) in Eb;
      try apply (proj2 (Qlt_alt _ _)) in Eb;
      try apply (proj2 (Qgt_alt _ _)) in Eb;
      exfalso; lra.
  - pose proof (round_half_even_bounds a).
    pose proof (round_half_even_bounds b). lia.
Qed.

Lemma ilog2_spec (q : Q) :
  0 < q -> 2 ^ Float.ilog2 q <= q /\ q < 2 ^ (Float.ilog2 q + 1).
Proof.
  intros Hq. unfold Float.ilog2.
  destruct q as [n d]. unfold Qlt in Hq. simpl in Hq.
  assert (Hn : (0 < n)%Z) by lia.
  simpl Qnum. simpl Qden.
  set (a := Z.log2 n). set (b := Z.log2 (Z.pos d)).
  destruct (Z.log2_spec n Hn) as [Ha1 Ha2]. fold a in Ha1, Ha2.
  destruct (Z.log2_spec (Z.pos d) eq_refl) as [Hb1 Hb2]. fold b in Hb1, Hb2.
  assert (Ha0 : (0 <= a)%Z) by apply Z.log2_nonneg.
  assert (Hb0 : (0 <= b)%Z) by apply Z.log2_nonneg.
  assert (Hq' : n # d == inject_Z n / inject_Z (Z.pos d)) by apply Qmake_Qdiv.
  assert (Hd : 0 < inject_Z (Z.pos d)) by (unfold Qlt; simpl; lia).
  assert (HA1 : 2 ^ a <= inject_Z n).
  { rewrite two_power_integer by lia. now rewrite <- Zle_Qle. }
  assert (HA2 : inject_Z n < 2 ^ (a + 1)).
  { rewrite two_power_integer by lia. rewrite <- Zlt_Qlt.
    now replace (a + 1)%Z with (Z.succ a) by lia. }
  assert (HB1 : 2 ^ b <= inject_Z (Z.pos d)).
  { rewrite two_power_integer by lia. now rewrite <- Zle_Qle. }
  assert (HB2 : inject_Z (Z.pos d) < 2 ^ (b + 1)).
  { rewrite two_power_integer by lia. rewrite <- Zlt_Qlt.
    now replace (b + 1)%Z with (Z.succ b) by lia. }
  pose proof (two_power_pos b) as Pb.
  pose proof (two_power_pos (a - b)) as Pab.
  pose proof (two_power_pos (a - b - 1)) as Pab1.
  pose proof (two_power_pos (a - b + 1)) as Pab2.
  assert (S1 : 2 ^ (a + 1) == 2 ^ (a - b + 1) * 2 ^ b).
  { rewrite (two_power_split (a + 1) b).
    now replace (a + 1 - b)%Z with (a - b + 1)%Z by lia. }
  assert (S2 : 2 ^ a == 2 ^ (a - b - 1) * 2 ^ (b + 1)).
  { rewrite (two_power_split a (b + 1)).
    now replace (a - (b + 1))%Z with (a - b - 1)%Z by lia. }
  set (x := inject_Z n) in *. set (y := inject_Z (Z.pos d)) in *.
  assert (Hxy : n # d == x / y) by exact Hq'.
  assert (Hup : x / y < 2 ^ (a - b + 1)).
  { apply Qlt_shift_div_r; [exact Hd |]. nra. }
  assert (Hlo : 2 ^ (a - b - 1) <= x / y).
  { apply Qle_shift_div_l; [exact Hd |]. nra. }
  destruct (Qle_bool (2 ^ (a - b)) (n # d)) eqn:E.
  - apply Qle_bool_iff in E. split; [exact E |]. now rewrite Hxy.
  - assert (E' : ~ 2 ^ (a - b) <= n # d).
    { intros H. apply Qle_bool_iff in H. congruence. }
    apply Qnot_le_lt in E'.
    replace (a - b - 1 + 1)%Z with (a - b)%Z by lia.
    split; [now rewrite Hxy | exact E'].
Qed.

Lemma ilog2_monotone (a b : Q) :
  0 < a -> a <= b -> (Float.ilog2 a <= Float.ilog2 b)%Z.
Proof.
  intros Ha Hab.
  destruct (ilog2_spec a Ha) as [La _].
  destruct (ilog2_spec b) as [_ Ub]; [lra |].
  assert (H : 2 ^ Float.ilog2 a < 2 ^ (Float.ilog2 b + 1)) by lra.
  apply Qpower_lt_compat_l_inv in H; [lia | reflexivity].
Qed.

Lemma precision_pos (d : Float.dtype) : (1 <= Float.precision d)%Z.
Proof. destruct d; simpl; lia. Qed.

(** A multiple of the unit in the last place that is not below [q] is
    not below the rounded [q], and likewise from below. *)
Lemma round_pos_le_grid (d : Float.dtype) (q : Q) (e : Z) :
  (Float.ulp_exponent d q <= e)%Z -> q <= 2 ^ e ->
  Float.round_pos d q <= 2 ^ e.
Proof.
  intros He Hq. unfold Float.round_pos.
  set (u := Float.ulp_exponent d q) in *.
  pose proof (two_power_pos u) as Pu.
  rewrite (two_power_split e u).
  apply Qmult_le_compat_r; [| lra].
  rewrite (two_power_integer (e - u)) by lia. rewrite <- Zle_Qle.
  rewrite <- (round_half_even_integer (2 ^ (e - u))).
  apply round_half_even_monotone.
  rewrite <- (two_power_integer (e - u)) by lia.
  apply Qle_shift_div_r; [exact Pu |].
  now rewrite <- two_power_split.
Qed.

Lemma round_pos_ge_grid (d : Float.dtype) (q : Q) (e : Z) :
  (Float.ulp_exponent d q <= e)%Z -> 2 ^ e <= q ->
  2 ^ e <= Float.round_pos d q.
Proof.
  intros He Hq. unfold Float.round_pos.
  set (u := Float.ulp_exponent d q) in *.
  pose proof (two_power_pos u) as Pu.
  rewrite (two_power_split e u) at 1.
  apply Qmult_le_compat_r; [| lra].
  rewrite (two_power_integer (e - u)) by lia. rewrite <- Zle_Qle.
  rewrite <- (round_half_even_integer (2 ^ (e - u))) at 1.
  apply round_half_even_monotone.
  rewrite <- (two_power_integer (e - u)) by lia.
  apply Qle_shift_div_l; [exact Pu |].
  now rewrite <- two_power_split.
Qed.

Lemma round_pos_monotone (d : Float.dtype) (a b : Q) :
  0 < a -> a <= b -> Float.round_pos d a <= Float.round_pos d b.
Proof.
  intros Ha Hab.
  assert (Hb : 0 < b) by lra.
  pose proof (ilog2_monotone a b Ha Hab) as Hlog.
  pose proof (precision_pos d) as Hp.
  destruct (Z.eq_dec (Float.ulp_exponent d a) (Float.ulp_exponent d b))
    as [E | E].
  - unfold Float.round_pos. rewrite <- E.
    set (u := Float.ulp_exponent d a).
    pose proof (two_power_pos u) as Pu.
    apply Qmult_le_compat_r; [| lra].
    rewrite <- Zle_Qle. apply round_half_even_monotone.
    apply Qmult_le_compat_r; [exact Hab |].
    apply Qlt_le_weak, Qinv_lt_0_compat, Pu.
  - destruct (ilog2_spec a Ha) as [_ Ua].
    destruct (ilog2_spec b Hb) as [Lb _].
    assert (Hlt : (Float.ilog2 a < Float.ilog2 b)%Z)
      by (unfold Float.ulp_exponent in E; lia).
    assert (Hmid : 2 ^ (Float.ilog2 a + 1) <= 2 ^ Float.ilog2 b)
      by (apply two_power_le; lia).
    apply Qle_trans with (y := 2 ^ Float.ilog2 b).
    + apply round_pos_le_grid; [unfold Float.ulp_exponent in *; lia |].
      apply Qlt_le_weak. eapply Qlt_le_trans; [exact Ua | exact Hmid].
    + apply round_pos_ge_grid; [| exact Lb].
      unfold Float.ulp_exponent in *. lia.
Qed.

Lemma round_pos_nonneg (d : Float.dtype) (q : Q) :
  0 < q -> 0 <= Float.round_pos d q.
Proof.
  intros Hq. unfold Float.round_pos.
  set (u := Float.ulp_exponent d q).
  pose proof (two_power_pos u) as Pu.
  apply Qmult_le_0_compat; [| lra].
  change 0 with (inject_Z 0). rewrite <- Zle_Qle.
  rewrite <- (round_half_even_integer 0).
  apply round_half_even_monotone.
  apply Qle_shift_div_l; [exact Pu |].
  change (inject_Z 0) with 0. rewrite Qmult_0_l. now apply Qlt_le_weak.
Qed.


Lemma cast_pos_nonneg (d : Float.dtype) (q : Q) :
  0 < q -> Float.leb (Float.Fin 0) (Float.cast_pos d q) = true.
Proof.
  intros Hq. unfold Float.cast_pos.
  destruct (Qle_bool (2 ^ Float.emax d) (Float.round_pos d q));
    [reflexivity |].
  simpl. apply Qle_bool_iff. now apply round_pos_nonneg.
Qed.

Lemma cast_pos_monotone (d : Float.dtype) (a b : Q) :
  0 < a -> a <= b ->
  Float.leb (Float.cast_pos d a) (Float.cast_pos d b) = true.
Proof.
  intros Ha Hab. pose proof (round_pos_monotone d a b Ha Hab) as Hr.
  unfold Float.cast_pos.
  destruct (Qle_bool (2 ^ Float.emax d) (Float.round_pos d b)) eqn:Eb.
  - destruct (Qle_bool (2 ^ Float.emax d) (Float.round_pos d a));
      reflexivity.
  - destruct (Qle_bool (2 ^ Float.emax d) (Float.round_pos d a)) eqn:Ea.
    + apply Qle_bool_iff in Ea.
      assert (Habs : Qle_bool (2 ^ Float.emax d) (Float.round_pos d b) = true).
      { apply Qle_bool_iff. eapply Qle_trans; eauto. }
      congruence.
    + simpl. now apply Qle_bool_iff.
Qed.

Lemma leb_opp (a b : Float.t) :
  Float.leb a b = true -> Float.leb (Float.opp b) (Float.opp a) = true.
Proof.
  destruct a, b; simpl; auto.
  rewrite !Qle_bool_iff. apply Qopp_le_compat.
Qed.

(** The cast is monotone: it keeps a sorted list of thresholds sorted. *)
Lemma cast_monotone (d : Float.dtype) (a b : Float.t) :
  Float.leb a b = true -> Float.leb (Float.cast d a) (Float.cast d b) = true.
Proof.
  assert (Htop : forall v, Float.leb v Float.PInf = true)
    by (intros [| v |]; reflexivity).
  destruct a as [| x |], b as [| y |]; try reflexivity; try discriminate;
    try (intros _; apply Htop).
  simpl Float.leb at 1. unfold Float.cast.
  - rewrite Qle_bool_iff. intros Hxy.
    destruct (x ?= 0) eqn:Ex; destruct (y ?= 0) eqn:Ey;
      try apply (proj2 (Qeq_alt _ _)) in Ex;
      try apply (proj2 (Qlt_alt _ _)) in Ex;
      try apply (proj2 (Qgt_alt _ _)) in Ex;
      try apply (proj2 (Qeq_alt _ _)) in Ey;
      try apply (proj2 (Qlt_alt _ _)) in Ey;
      try apply (proj2 (Qgt_alt _ _)) in Ey;
      try (exfalso; lra).
    + reflexivity.
    + now apply cast_pos_nonneg.
    + apply (leb_opp (Float.Fin 0) (Float.cast_pos d (- x))).
      apply cast_pos_nonneg. lra.
    + apply leb_opp. apply cast_pos_monotone; lra.
    + apply float_leb_trans with (b := Float.Fin 0).
      * apply (leb_opp (Float.Fin 0) (Float.cast_pos d (- x))).
        apply cast_pos_nonneg. lra.
      * now apply cast_pos_nonneg.
    + now apply cast_pos_monotone.
Qed.

(** The examples: [float32(0.7)] is [11744051 / 2^24], just below [0.7];
    [0.5] is a value of every format; [65520] is beyond float16 and the
    halfway case [2^-150] of float32 goes to the even neighbour, zero. *)
Example cast_examples :
  Float.cast Float.float32 (Float.Fin (7 # 10))
  = Float.Fin (11744051 # 16777216)
  /\ Float.eqb (Float.cast Float.float16 (Float.Fin (5 # 10)))
               (Float.Fin (5 # 10)) = true
  /\ Float.cast Float.float16 (Float.Fin 65520) = Float.PInf
  /\ Float.cast Float.float16 (Float.Fin 65519) = Float.Fin 65504
  /\ Float.eqb (Float.cast Float.float32 (Float.Fin (1 # 2 ^ 150)))
               Float.zero = true
  /\ Float.cast Float.float64 (Float.Fin (- (1 # 10)))
     = Float.Fin (- (7205759403792794 # 72057594037927936)).
Proof. repeat split; vm_compute; reflexivity. Qed.

End Rounding.

Lemma cast_sorted (d : Float.dtype) (l : list Float.t) :
  Sorted Float.le l -> Sorted Float.le (map (Float.cast d) l).
Proof.
  induction 1 as [| x l Hs IH Hd]; simpl; constructor; [exact IH |].
  destruct l as [| y l]; simpl; constructor.
  apply HdRel_inv in Hd. now apply cast_monotone.
Qed.

(* ================================================================== *)
(** * Facts about the tensor primitives *)
(* ================================================================== *)

Section OpsFacts.

Lemma zip_with_repeat_r (A B C : Type) (f : A -> B -> C) (y : B)
      (l : list A) (n : nat) :
  length l <= n -> ops.zip_with f l (repeat y n) = map (fun x => f x y) l.
Proof.
  revert n. induction l as [| x l IH]; intros [| n] Hn; simpl in *;
    try reflexivity; try lia.
  f_equal. apply IH. lia.
Qed.

Lemma zip_with_map_same (A B C D : Type) (f : B -> C -> D)
      (g : A -> B) (h : A -> C) (l : list A) :
  ops.zip_with f (map g l) (map h l) = map (fun x => f (g x) (h x)) l.
Proof.
  induction l as [| x l IH]; simpl; [reflexivity | now rewrite IH].
Qed.

Lemma map_ext_Forall (A B : Type) (f g : A -> B) (l : list A) :
  Forall (fun x => f x = g x) l -> map f l = map g l.
Proof.
  induction 1; simpl; [reflexivity | congruence].
Qed.

(** The scan returns either the incoming index, when nothing in the
    list is strictly larger, or the position of an element that
    dominates the incoming value and the whole list. *)
Lemma argmax_scan_spec (l : list Float.t) :
  forall best_i best i,
    let r := ops.argmax_scan best_i best i l in
    (r = best_i /\ forall x, In x l -> Float.le x best)
    \/ (i <= r < i + length l
        /\ Float.le best (nth (r - i) l Float.NInf)
        /\ forall x, In x l -> Float.le x (nth (r - i) l Float.NInf)).
Proof.
  unfold Float.le.
  induction l as [| x l IH]; intros best_i best i; simpl.
  - left. split; [reflexivity | intros ? []].
  - destruct (Float.ltb best x) eqn:Hlt.
    + specialize (IH i x (S i)). simpl in IH.
      destruct IH as [[Hr Hall] | (Hr & Hb & Hall)].
      * right. rewrite Hr, Nat.sub_diag. simpl.
        split; [lia |]. split; [eauto with floats |].
        intros y [<- | Hy]; auto with floats.
      * right.
        destruct (ops.argmax_scan i x (S i) l - i) as [| k] eqn:Hk; [lia |].
        replace (ops.argmax_scan i x (S i) l - S i) with k in * by lia.
        split; [lia |]. split; [eauto with floats |].
        intros y [<- | Hy]; auto.
    + specialize (IH best_i best (S i)). simpl in IH.
      destruct IH as [[Hr Hall] | (Hr & Hb & Hall)].
      * left. split; [exact Hr |].
        intros y [<- | Hy]; auto with floats.
      * right.
        destruct (ops.argmax_scan best_i best (S i) l - i) as [| k] eqn:Hk;
          [lia |].
        replace (ops.argmax_scan best_i best (S i) l - S i) with k in * by lia.
        split; [lia |]. split; [exact Hb |].
        intros y [<- | Hy]; eauto with floats.
Qed.

Lemma argmax1_spec (l : list Float.t) :
  l <> [] ->
  ops.argmax1 l < length l /\
  forall x, In x l -> Float.le x (nth (ops.argmax1 l) l Float.NInf).
Proof.
  destruct l as [| a l]; [congruence | intros _].
  unfold ops.argmax1.
  destruct (argmax_scan_spec l 0 a 1) as [[Hr Hall] | (Hr & Hb & Hall)].
  - rewrite Hr. simpl. split; [lia |].
    intros y [<- | Hy]; [apply float_leb_refl | auto].
  - simpl length.
    destruct (ops.argmax_scan 0 a 1 l) as [| k] eqn:Hk; [lia |].
    simpl in *. rewrite Nat.sub_0_r in *. split; [lia |].
    intros y [<- | Hy]; auto.
Qed.

Lemma max_scan_spec (l : list Float.t) :
  forall best,
    (ops.max_scan best l = best \/ In (ops.max_scan best l) l)
    /\ Float.le best (ops.max_scan best l)
    /\ forall x, In x l -> Float.le x (ops.max_scan best l).
Proof.
  unfold Float.le.
  induction l as [| x l IH]; intros best; simpl.
  - repeat split; auto with floats.
  - destruct (Float.ltb best x) eqn:Hlt.
    + destruct (IH x) as ([He | Hi] & Hb & Hall).
      * rewrite He in *. repeat split; auto with floats.
        intros y [<- | Hy]; auto with floats.
      * repeat split; eauto with floats.
        intros y [<- | Hy]; auto.
    + destruct (IH best) as ([He | Hi] & Hb & Hall).
      * rewrite He in *. repeat split; auto.
        intros y [<- | Hy]; auto with floats.
      * repeat split; auto.
        intros y [<- | Hy]; eauto with floats.
Qed.

Lemma max1_spec (l : list Float.t) :
  l <> [] -> MatcherSpec.row_max l (ops.max1 l).
Proof.
  destruct l as [| a l]; [congruence | intros _].
  unfold MatcherSpec.row_max, ops.max1.
  destruct (max_scan_spec l a) as ([He | Hi] & Hb & Hall).
  - rewrite He. split; [now left |].
    intros y [<- | Hy]; [apply float_leb_refl |].
    rewrite <- He. auto.
  - split; [now right |].
    intros y [<- | Hy]; auto.
Qed.

End OpsFacts.

(* ================================================================== *)
(** * BoxMatcher: proofs *)
(* ================================================================== *)

Module MatcherProofs.
Import BoxMatcher MatcherSpec.

Lemma threshold_step_map (dt : Float.dtype) (vals : list (list Float.t))
      (g : Float.t -> Z) (item : Z * Float.t * Float.t) :
  threshold_step dt vals (map (map g) vals) item
  = map (map (fun v => classify [cast_item dt item] v (g v))) vals.
Proof.
  destruct item as [[ind low] high].
  unfold threshold_step, _set_values_using_indicator, ops.logical_and,
    ops.greater_equal, ops.less, ops.cast_int_of_bool, ops.equal_zero,
    ops.where_scalar, classify, cast_item.
  simpl.
  induction vals as [| row vals IH]; simpl; [reflexivity |].
  f_equal; [| exact IH].
  clear IH. induction row as [| v row IH]; simpl; [reflexivity |].
  f_equal; [| exact IH].
  destruct (Float.leb (Float.cast dt low) v
            && Float.ltb v (Float.cast dt high)); reflexivity.
Qed.

Lemma threshold_loop_map (dt : Float.dtype) (vals : list (list Float.t))
      (items : list (Z * Float.t * Float.t)) :
  forall g,
    fold_left (threshold_step dt vals) items (map (map g) vals)
    = map (map (fun v => classify (map (cast_item dt) items) v (g v))) vals.
Proof.
  induction items as [| item items IH]; intros g; simpl.
  - reflexivity.
  - rewrite threshold_step_map, IH. reflexivity.
Qed.

Lemma padded_matrix (B R : nat) (data : list (list (list Float.t))) :
  length data = B -> Forall (fun m => length m = R) data ->
  ops.concatenate_last data (ops.neg3 (ops.ones3 B R 1))
  = map (map pad_row) data.
Proof.
  intros HB HR.
  unfold ops.concatenate_last, ops.neg3, ops.ones3.
  rewrite !map_repeat. simpl.
  rewrite zip_with_repeat_r by lia.
  apply map_ext_Forall.
  eapply Forall_impl; [| exact HR].
  intros m Hm. simpl in Hm.
  rewrite zip_with_repeat_r by lia. reflexivity.
Qed.

Lemma zeros2_as_map (A : Type) (B R : nat) (x : list (list A)) :
  length x = B -> Forall (fun m => length m = R) x ->
  ops.zeros2 B R = map (map (fun _ => 0%Z)) x.
Proof.
  intros <- HR. unfold ops.zeros2.
  induction HR as [| m x Hm HR IH]; simpl; [reflexivity |].
  f_equal; [| exact IH].
  subst R. clear. induction m; simpl; congruence.
Qed.

Lemma non_empty_without_force (self : t) (dt : Float.dtype) (B R C : nat)
      (data : list (list (list Float.t))) :
  length data = B -> Forall (fun m => length m = R) data ->
  force_match_for_each_col self = false ->
  _match_when_cols_are_non_empty self dt B R C data
  = Ok (map (map row_column) data, map (map (row_value dt self)) data).
Proof.
  intros HB HR Hf.
  unfold _match_when_cols_are_non_empty. rewrite Hf.
  rewrite (padded_matrix HB HR).
  unfold ops.argmax_last, ops.max_last, ops.reduce_last, ops.cast_int.
  rewrite (@zeros2_as_map _ B R (map (map ops.max1) (map (map pad_row) data))).
  - rewrite threshold_loop_map.
    rewrite !map_map.
    f_equal. f_equal.
    + apply map_ext. intros m. rewrite !map_map. reflexivity.
    + apply map_ext. intros m. rewrite !map_map. reflexivity.
  - now rewrite !length_map.
  - rewrite map_map. apply Forall_map.
    eapply Forall_impl; [| exact HR].
    intros m Hm. simpl in *. now rewrite !length_map.
Qed.

Lemma Forall2_map_same (A B : Type) (P : A -> B -> Prop) (f : A -> B)
      (l : list A) :
  Forall (fun x => P x (f x)) l -> Forall2 P l (map f l).
Proof.
  induction 1; simpl; constructor; auto.
Qed.

Lemma matrix_shape_ok_spec (R C : nat) (m : list (list Float.t)) :
  matrix_shape_ok R C m = true ->
  length m = R /\ Forall (fun row => length row = C) m.
Proof.
  unfold matrix_shape_ok. intros H.
  apply andb_prop in H. destruct H as [H1 H2].
  split; [now apply Nat.eqb_eq |].
  apply Forall_forall. intros row Hrow.
  rewrite forallb_forall in H2. now apply Nat.eqb_eq, H2.
Qed.

Lemma length_pad_row (row : list Float.t) :
  length (pad_row row) = length row + 1.
Proof. unfold pad_row. now rewrite length_app. Qed.

Lemma nth_pad_row_last (row : list Float.t) (d : Float.t) :
  nth (length row) (pad_row row) d = Float.opp Float.one.
Proof. unfold pad_row. apply nth_middle. Qed.

Lemma nth_pad_row (row : list Float.t) (k : nat) (d : Float.t) :
  k < length row -> nth k (pad_row row) d = nth k row d.
Proof. intros H. unfold pad_row. now apply app_nth1. Qed.

Lemma in_pad_row (row : list Float.t) (x : Float.t) :
  In x row -> In x (pad_row row).
Proof. intros H. unfold pad_row. apply in_or_app. now left. Qed.

Lemma pad_row_not_nil (row : list Float.t) : pad_row row <> [].
Proof. unfold pad_row. now destruct row. Qed.

Lemma unit_above_padding (x : Float.t) :
  in_unit x = true -> Float.leb x (Float.opp Float.one) = false.
Proof.
  unfold in_unit. intros H. apply andb_prop in H. destruct H as [H0 _].
  destruct (Float.leb x (Float.opp Float.one)) eqn:E; [| reflexivity].
  pose proof (float_leb_trans _ _ _ H0 E) as Habs.
  vm_compute in Habs. discriminate.
Qed.

Lemma row_column_ok (row : list Float.t) :
  row <> [] -> forallb in_unit row = true ->
  attains_row_max row (row_column row).
Proof.
  intros Hne Hunit.
  unfold attains_row_max, row_column.
  destruct (argmax1_spec (pad_row_not_nil row)) as [Hlt Hmax].
  rewrite length_pad_row in Hlt.
  rewrite Nat2Z.id.
  split; [lia |].
  assert (Hc : ops.argmax1 (pad_row row) < length row).
  { destruct (Nat.eq_dec (ops.argmax1 (pad_row row)) (length row)) as [E | E];
      [| lia].
    exfalso.
    destruct row as [| x row]; [congruence |].
    specialize (Hmax x (in_pad_row _ _ (in_eq x row))).
    rewrite E, nth_pad_row_last in Hmax.
    simpl in Hunit. apply andb_prop in Hunit. destruct Hunit as [Hx _].
    apply unit_above_padding in Hx.
    unfold Float.le in Hmax. congruence. }
  split; [exact Hc |].
  intros x Hx.
  specialize (Hmax x (in_pad_row _ _ Hx)).
  now rewrite nth_pad_row in Hmax.
Qed.

Lemma matrix_columns_ok (R C : nat) (m : list (list Float.t)) :
  matrix_shape_ok R C m = true -> 1 <= C ->
  forallb (forallb in_unit) m = true ->
  Forall2 (fun row c => attains_row_max row c /\ (c < Z.of_nat C)%Z)
          m (map row_column m).
Proof.
  intros Hs HC Hu.
  destruct (matrix_shape_ok_spec _ _ _ Hs) as [_ Hrows].
  apply Forall2_map_same, Forall_forall. intros row Hrow.
  rewrite Forall_forall in Hrows. specialize (Hrows row Hrow).
  rewrite forallb_forall in Hu. specialize (Hu row Hrow).
  assert (Hne : row <> []) by (destruct row; simpl in *; [lia | congruence]).
  pose proof (row_column_ok Hne Hu) as Hok.
  split; [exact Hok |].
  destruct Hok as (H0 & Hlt & _). lia.
Qed.

Lemma Forall2_any (A B : Type) (f : A -> B) (l : list A) :
  Forall2 (fun _ _ => True) l (map f l).
Proof. apply Forall2_map_same, Forall_forall. auto. Qed.

(** C1 (amended). With [force_match_for_each_col=False], on a similarity
    matrix of either rank with at least one column and every entry in
    [[0, 1]], [call] returns, and the matched column of every row is the
    index of a column holding a largest entry of that row and is smaller
    than [num_cols]: the column of [-1] added inside is never chosen. *)
Theorem matched_columns_attain_row_max
        (self : t) (dt : Float.dtype) (s : similarity) :
  shape_ok s = true ->
  1 <= num_cols_of s ->
  unit_entries s = true ->
  force_match_for_each_col self = false ->
  exists o,
    call self dt s = Ok o /\
    rowwise (fun row c =>
               attains_row_max row c /\ (c < Z.of_nat (num_cols_of s))%Z)
            any_value s o.
Proof.
  intros Hs HC Hu Hf.
  destruct s as [R C m | B R C data]; simpl in *.
  - destruct (matrix_shape_ok_spec _ _ _ Hs) as [HR _].
    unfold cond_num_boxes, ops.expand_dims.
    replace (0 <? C) with true by (symmetry; apply Nat.ltb_lt; lia).
    rewrite (@non_empty_without_force self dt 1 R C [m]); auto.
    simpl. eexists. split; [reflexivity |]. simpl.
    split; [now apply matrix_columns_ok with (R := R) | apply Forall2_any].
  - apply andb_prop in Hs. destruct Hs as [HB Hms].
    apply Nat.eqb_eq in HB. rewrite forallb_forall in Hms.
    unfold cond_num_boxes.
    replace (0 <? C) with true by (symmetry; apply Nat.ltb_lt; lia).
    rewrite (@non_empty_without_force self dt B R C data); auto.
    + simpl. eexists. split; [reflexivity |]. simpl.
      split.
      * apply Forall2_map_same, Forall_forall. intros m Hm.
        apply matrix_columns_ok with (R := R); auto.
        rewrite forallb_forall in Hu. auto.
      * apply Forall2_map_same, Forall_forall. intros m Hm.
        apply Forall2_any.
    + apply Forall_forall. intros m Hm.
      now destruct (matrix_shape_ok_spec _ _ _ (Hms m Hm)).
Qed.

(* ---------------- construction ---------------- *)

Lemma insert_sorted_head (x : Float.t) (l : list Float.t) :
  Sorted Float.le (x :: l) -> insert x l = x :: l.
Proof.
  intros H. destruct l as [| y l]; simpl; [reflexivity |].
  apply Sorted_inv in H. destruct H as [_ Hd].
  apply HdRel_inv in Hd. unfold Float.le in Hd. now rewrite Hd.
Qed.

Lemma sorted_fixes_ascending (l : list Float.t) :
  Sorted Float.le l -> sorted l = l.
Proof.
  induction l as [| x l IH]; intros H; simpl; [reflexivity |].
  rewrite IH by (now apply Sorted_inv in H).
  now apply insert_sorted_head.
Qed.

Lemma list_eq_refl (l : list Float.t) : list_eq l l = true.
Proof.
  induction l as [| x l IH]; simpl; [reflexivity |].
  now rewrite float_eqb_refl, IH.
Qed.

Lemma insert_ascending (x : Float.t) (l : list Float.t) :
  Sorted Float.le l -> Sorted Float.le (insert x l).
Proof.
  induction l as [| y l IH]; intros H; simpl.
  - repeat constructor.
  - destruct (Float.leb x y) eqn:E.
    + constructor; [exact H | constructor; exact E].
    + apply Sorted_inv in H. destruct H as [Hs Hd].
      constructor; [now apply IH |].
      assert (Hyx : Float.le y x).
      { destruct (float_leb_total x y) as [A | A]; [congruence | exact A]. }
      destruct l as [| z l]; simpl.
      * constructor. exact Hyx.
      * destruct (Float.leb x z); constructor; [exact Hyx |].
        now apply HdRel_inv in Hd.
Qed.

Lemma sorted_ascending (l : list Float.t) : Sorted Float.le (sorted l).
Proof.
  induction l as [| x l IH]; simpl; [constructor | now apply insert_ascending].
Qed.

Lemma list_eq_ascending (l1 l2 : list Float.t) :
  list_eq l1 l2 = true -> Sorted Float.le l1 -> Sorted Float.le l2.
Proof.
  revert l2. induction l1 as [| x l1 IH]; intros [| y l2] He Hs;
    simpl in He; try discriminate; [constructor |].
  apply andb_prop in He. destruct He as [Hxy He].
  apply Sorted_inv in Hs. destruct Hs as [Hs Hd].
  constructor; [now apply IH |].
  destruct l1 as [| x' l1], l2 as [| y' l2]; simpl in He; try discriminate;
    constructor.
  apply andb_prop in He. destruct He as [Hxy' _].
  apply HdRel_inv in Hd.
  unfold Float.eqb in Hxy, Hxy'.
  apply andb_prop in Hxy. apply andb_prop in Hxy'.
  destruct Hxy as [_ Hyx]. destruct Hxy' as [Hxy' _].
  unfold Float.le in *. eauto using float_leb_trans.
Qed.

Lemma sorted_check_iff (l : list Float.t) :
  list_eq (sorted l) l = true <-> Sorted Float.le l.
Proof.
  split.
  - intros H. eapply list_eq_ascending; [exact H | apply sorted_ascending].
  - intros H. rewrite sorted_fixes_ascending by exact H. apply list_eq_refl.
Qed.



(* ---------------- threshold classification ---------------- *)

Lemma classify_cons (item : Z * Float.t * Float.t)
      (items : list (Z * Float.t * Float.t)) (v : Float.t) (acc : Z) :
  classify (item :: items) v acc
  = classify items v (if hit v item then fst (fst item) else acc).
Proof. destruct item as [[ind low] high]. reflexivity. Qed.

Lemma classify_no_hit (items : list (Z * Float.t * Float.t)) (v : Float.t) :
  forall acc,
    (forall j, j < length items -> hit v (nth j items no_item) = false) ->
    classify items v acc = acc.
Proof.
  induction items as [| item items IH]; intros acc Hno; [reflexivity |].
  rewrite classify_cons.
  pose proof (Hno 0) as H0. simpl in H0. rewrite H0 by lia.
  apply IH. intros j Hj. apply (Hno (S j)). simpl. lia.
Qed.

Lemma classify_single_hit (items : list (Z * Float.t * Float.t))
      (v : Float.t) :
  forall acc k,
    k < length items ->
    hit v (nth k items no_item) = true ->
    (forall j, j < length items -> hit v (nth j items no_item) = true ->
               j = k) ->
    classify items v acc = fst (fst (nth k items no_item)).
Proof.
  induction items as [| item items IH]; intros acc k Hk Hhit Huniq;
    [simpl in Hk; lia |].
  rewrite classify_cons.
  destruct k as [| k]; simpl in Hhit |- *.
  - rewrite Hhit. apply classify_no_hit.
    intros j Hj.
    destruct (hit v (nth j items no_item)) eqn:E; [| reflexivity].
    specialize (Huniq (S j)). simpl in Huniq.
    assert (S j = 0) by (apply Huniq; [lia | exact E]). discriminate.
  - apply IH; [simpl in Hk; lia | exact Hhit |].
    intros j Hj E.
    specialize (Huniq (S j)). simpl in Huniq.
    assert (S j = S k) by (apply Huniq; [lia | exact E]). lia.
Qed.

Lemma ascending_nth (l : list Float.t) (d : Float.t) :
  Sorted Float.le l ->
  forall i j, i <= j -> j < length l -> Float.le (nth i l d) (nth j l d).
Proof.
  intros Hs.
  assert (Hss : StronglySorted Float.le l).
  { apply Sorted_StronglySorted; [| exact Hs].
    intros a b c. unfold Float.le. apply float_leb_trans. }
  clear Hs. induction Hss as [| x l Hss IH Hall]; intros i j Hij Hj.
  - simpl in Hj. lia.
  - destruct i as [| i], j as [| j]; simpl in *; try lia.
    + apply float_leb_refl.
    + rewrite Forall_forall in Hall. apply Hall, nth_In. lia.
    + apply IH; lia.
Qed.

Lemma ascending_bracket (l : list Float.t) :
  Sorted Float.le l ->
  Sorted Float.le (Float.NInf :: l ++ [Float.PInf]).
Proof.
  intros Hs. constructor.
  - induction Hs as [| x l Hs IH Hd]; simpl.
    + repeat constructor.
    + constructor; [exact IH |].
      destruct l as [| y l]; simpl; constructor.
      * destruct x; reflexivity.
      * now apply HdRel_inv in Hd.
  - destruct l; constructor; reflexivity.
Qed.

(** Between a lower end that is not above [v] and an upper end that is
    above [v], some pair of neighbours encloses [v]. *)
Lemma bracket_exists (v : Float.t) (l : list Float.t) :
  forall a,
    Float.le a v ->
    Float.lt v (last (a :: l) Float.PInf) ->
    exists k,
      k + 1 < length (a :: l) /\
      Float.le (nth k (a :: l) Float.NInf) v /\
      Float.lt v (nth (k + 1) (a :: l) Float.PInf).
Proof.
  induction l as [| b l IH]; intros a Ha Hlast.
  - simpl in Hlast. exfalso. eapply float_lt_le_absurd; eauto.
  - destruct (Float.ltb v b) eqn:E.
    + exists 0. simpl. split; [lia |]. split; [exact Ha | exact E].
    + destruct (IH b) as (k & Hk & Hlo & Hhi).
      * now apply float_ltb_false.
      * exact Hlast.
      * exists (S k). simpl in *. split; [lia |]. split; assumption.
Qed.

Lemma in_interval_unique (thr : list Float.t) (v : Float.t) (k k' : nat) :
  Sorted Float.le thr ->
  in_interval thr k v -> in_interval thr k' v -> k' = k.
Proof.
  intros Hs (Hk & Hlo & Hhi) (Hk' & Hlo' & Hhi').
  destruct (Nat.lt_trichotomy k k') as [Hlt | [Heq | Hgt]]; [| auto |].
  - exfalso.
    pose proof (@ascending_nth thr Float.NInf Hs (k + 1) k') as Hm.
    rewrite (nth_indep thr Float.NInf Float.PInf) in Hm by lia.
    rewrite (nth_indep thr Float.NInf Float.PInf) in Hlo' by lia.
    rewrite (nth_indep thr Float.NInf Float.PInf) in Hm by lia.
    eapply float_lt_le_absurd; [exact Hhi |].
    eapply float_leb_trans; [apply Hm; lia | exact Hlo'].
  - exfalso.
    pose proof (@ascending_nth thr Float.NInf Hs (k' + 1) k) as Hm.
    rewrite (nth_indep thr Float.NInf Float.PInf) in Hm by lia.
    rewrite (nth_indep thr Float.NInf Float.PInf) in Hlo by lia.
    rewrite (nth_indep thr Float.NInf Float.PInf) in Hm by lia.
    eapply float_lt_le_absurd; [exact Hhi' |].
    eapply float_leb_trans; [apply Hm; lia | exact Hlo].
Qed.

Lemma init_ok_inv (sup : bool) (thr : list Float.t) (mv : list Z)
      (f : bool) (self : t) :
  __init__ sup thr mv f = Ok self ->
  Sorted Float.le thr /\ length mv = length thr + 1 /\
  self = Build mv (Float.NInf :: thr ++ [Float.PInf]) f.
Proof.
  unfold __init__, assert_bounding_box_support.
  destruct sup; simpl; [| discriminate].
  destruct (list_eq (sorted thr) thr) eqn:Hs; simpl; [| discriminate].
  destruct (length mv =? length thr + 1) eqn:Hl; simpl; [| discriminate].
  intros H. injection H as <-.
  split; [now apply sorted_check_iff |].
  split; [now apply Nat.eqb_eq | reflexivity].
Qed.

Lemma cast_thresholds_built (dt : Float.dtype) (thr : list Float.t)
      (mv : list Z) (f : bool) :
  cast_thresholds dt (Build mv (Float.NInf :: thr ++ [Float.PInf]) f)
  = Float.NInf :: map (Float.cast dt) thr ++ [Float.PInf].
Proof. unfold cast_thresholds. simpl. now rewrite map_app. Qed.

Lemma nth_cast (dt : Float.dtype) (l : list Float.t) (j : nat) :
  nth j (map (Float.cast dt) l) Float.NInf
  = Float.cast dt (nth j l Float.NInf)
  /\ nth j (map (Float.cast dt) l) Float.PInf
     = Float.cast dt (nth j l Float.PInf).
Proof.
  split.
  - exact (map_nth (Float.cast dt) l Float.NInf j).
  - exact (map_nth (Float.cast dt) l Float.PInf j).
Qed.

Lemma items_of_built (dt : Float.dtype) (thr : list Float.t) (mv : list Z)
      (f : bool) :
  length mv = length thr + 1 ->
  let self := Build mv (Float.NInf :: thr ++ [Float.PInf]) f in
  length (items_of dt self) = length mv /\
  forall j, j < length mv ->
    nth j (items_of dt self) no_item
    = (nth j mv 0%Z,
       nth j (cast_thresholds dt self) Float.NInf,
       nth (j + 1) (cast_thresholds dt self) Float.PInf).
Proof.
  intros Hl self.
  assert (Hcast : cast_thresholds dt self
                  = map (Float.cast dt) (Float.NInf :: thr ++ [Float.PInf]))
    by reflexivity.
  rewrite Hcast. clear Hcast. unfold items_of, zip3, self.
  simpl thresholds. simpl match_values. simpl tl.
  set (T := map (Float.cast dt) (Float.NInf :: thr ++ [Float.PInf])).
  rewrite (app_comm_cons thr [Float.PInf] Float.NInf), removelast_last.
  assert (L1 : length mv = length (Float.NInf :: thr)) by (simpl; lia).
  assert (L2 : length (combine mv (Float.NInf :: thr))
               = length (thr ++ [Float.PInf])).
  { rewrite length_combine, length_app. simpl. lia. }
  split.
  - rewrite length_map, !length_combine, length_app. simpl. lia.
  - intros j Hj.
    change no_item with (cast_item dt no_item).
    rewrite (map_nth (cast_item dt)). unfold no_item.
    rewrite (combine_nth _ _ j (0%Z, Float.NInf) Float.PInf L2).
    rewrite (combine_nth _ _ j 0%Z Float.NInf L1).
    unfold cast_item, T.
    destruct (nth_cast dt (Float.NInf :: thr ++ [Float.PInf]) j) as [-> _].
    destruct (nth_cast dt (Float.NInf :: thr ++ [Float.PInf]) (j + 1))
      as [_ ->].
    f_equal; [f_equal |]; f_equal.
    + rewrite (app_comm_cons thr [Float.PInf] Float.NInf).
      rewrite app_nth1 by (simpl; lia). reflexivity.
    + rewrite Nat.add_1_r. reflexivity.
Qed.

Lemma leb_equiv_l (a b c : Float.t) :
  Float.le a b -> Float.le b a -> Float.leb c a = Float.leb c b.
Proof.
  unfold Float.le. intros Hab Hba.
  destruct (Float.leb c a) eqn:E1, (Float.leb c b) eqn:E2; auto.
  - rewrite (float_leb_trans _ _ _ E1 Hab) in E2. discriminate.
  - rewrite (float_leb_trans _ _ _ E2 Hba) in E1. discriminate.
Qed.

Lemma hit_equiv (a b : Float.t) (item : Z * Float.t * Float.t) :
  Float.le a b -> Float.le b a -> hit a item = hit b item.
Proof.
  intros Hab Hba. destruct item as [[ind low] high]. unfold hit, Float.ltb.
  now rewrite (leb_equiv_l low Hab Hba), (leb_equiv_l high Hab Hba).
Qed.

Lemma unit_below_infinity (m : Float.t) :
  in_unit m = true -> Float.le Float.NInf m /\ Float.lt m Float.PInf.
Proof.
  unfold in_unit, Float.le, Float.lt, Float.ltb.
  destruct m; simpl; intros H; try discriminate; auto.
Qed.

(** The maximum of the padded row is the maximum of the row. *)
Lemma padded_max_equiv (row : list Float.t) (m : Float.t) :
  forallb in_unit row = true -> row_max row m ->
  Float.le m (ops.max1 (pad_row row)) /\ Float.le (ops.max1 (pad_row row)) m.
Proof.
  intros Hu [Hin Hmax].
  destruct (max1_spec (pad_row_not_nil row)) as [Hvin Hvmax].
  split; [apply Hvmax, in_pad_row, Hin |].
  unfold pad_row in Hvin. apply in_app_or in Hvin.
  destruct Hvin as [Hv | [Hv | []]]; [now apply Hmax |].
  fold (pad_row row) in Hv.
  exfalso.
  pose proof (Hvmax m (in_pad_row _ _ Hin)) as Hle.
  rewrite <- Hv in Hle.
  rewrite forallb_forall in Hu.
  pose proof (unit_above_padding _ (Hu m Hin)) as Habs.
  unfold Float.le in Hle. congruence.
Qed.

Lemma hit_in_interval (dt : Float.dtype) (thr : list Float.t)
      (mv : list Z) (f : bool) (v : Float.t) (j : nat) :
  length mv = length thr + 1 ->
  let self := Build mv (Float.NInf :: thr ++ [Float.PInf]) f in
  j < length mv ->
  (hit v (nth j (items_of dt self) no_item) = true
   <-> in_interval (cast_thresholds dt self) j v).
Proof.
  intros Hl self Hj.
  destruct (@items_of_built dt thr mv f Hl) as [_ Hnth].
  fold self in Hnth. rewrite (Hnth j Hj).
  unfold hit, in_interval, Float.le, Float.lt.
  rewrite andb_true_iff.
  assert (Hlen : j + 1 < length (cast_thresholds dt self)).
  { unfold cast_thresholds, self. simpl. rewrite length_map, length_app.
    simpl. lia. }
  tauto.
Qed.

Lemma row_value_classified (dt : Float.dtype) (thr : list Float.t)
      (mv : list Z) (f : bool) (row : list Float.t) :
  Sorted Float.le thr -> length mv = length thr + 1 ->
  row <> [] ->
  forallb in_unit row = true ->
  let self := Build mv (Float.NInf :: thr ++ [Float.PInf]) f in
  classified dt self row (row_value dt self row).
Proof.
  intros Hs Hl Hne Hu self.
  split; [exists (ops.max1 row); now apply max1_spec |].
  intros m Hm.
  destruct (padded_max_equiv Hu Hm) as [Hmv Hvm].
  set (v := ops.max1 (pad_row row)) in *.
  assert (Hfin : in_unit m = true).
  { rewrite forallb_forall in Hu. apply Hu, Hm. }
  destruct (unit_below_infinity _ Hfin) as [Hlo Hhi].
  set (cthr := map (Float.cast dt) thr).
  destruct (@bracket_exists m (cthr ++ [Float.PInf]) Float.NInf Hlo)
    as (k & Hk & Hklo & Hkhi).
  { rewrite (app_comm_cons cthr [Float.PInf] Float.NInf), last_last.
    exact Hhi. }
  assert (Hcast : cast_thresholds dt self
                  = Float.NInf :: cthr ++ [Float.PInf])
    by apply cast_thresholds_built.
  assert (Hin : in_interval (cast_thresholds dt self) k m).
  { rewrite Hcast. unfold in_interval. auto. }
  assert (Hkmv : k < length mv).
  { simpl in Hk. unfold cthr in Hk.
    rewrite length_app, length_map in Hk. simpl in Hk. lia. }
  assert (Hsorted : Sorted Float.le (cast_thresholds dt self)).
  { unfold cast_thresholds, self. simpl thresholds.
    now apply cast_sorted, ascending_bracket. }
  destruct (@items_of_built dt thr mv f Hl) as [Hlen Hnth].
  fold self in Hlen, Hnth.
  exists k. split; [exact Hkmv |]. split; [exact Hin |]. split.
  - unfold row_value. fold v.
    rewrite (@classify_single_hit (items_of dt self) v 0%Z k).
    + rewrite (Hnth k Hkmv). reflexivity.
    + lia.
    + rewrite (hit_equiv _ Hvm Hmv).
      now apply (@hit_in_interval dt thr mv f m k Hl Hkmv).
    + intros j Hj Hhit.
      rewrite (hit_equiv _ Hvm Hmv) in Hhit.
      apply (@hit_in_interval dt thr mv f m j Hl) in Hhit; [| lia].
      fold self in Hhit.
      exact (in_interval_unique Hsorted Hin Hhit).
  - intros k' Hk'. exact (in_interval_unique Hsorted Hin Hk').
Qed.



Lemma matched_columns_attain_row_max_witness :
  exists o,
    call (Build [0%Z; 1%Z] [Float.NInf; tenth 5; Float.PInf] false)
         Float.float32
         (Rank3 1 2 2 [[[tenth 9; tenth 8]; [tenth 1; tenth 2]]]) = Ok o /\
    rowwise (fun row c => attains_row_max row c /\ (c < 2)%Z) any_value
            (Rank3 1 2 2 [[[tenth 9; tenth 8]; [tenth 1; tenth 2]]]) o.
Proof.
  apply (@matched_columns_attain_row_max
           (Build [0%Z; 1%Z] [Float.NInf; tenth 5; Float.PInf] false)
           Float.float32
           (Rank3 1 2 2 [[[tenth 9; tenth 8]; [tenth 1; tenth 2]]]));
    [reflexivity | simpl; lia | reflexivity | reflexivity].
Defined.


(** C1 (counterexample). With [force_match_for_each_col=True] a row that
    is the best row of a column is given that column, whatever its own
    largest entry: in
    [[0.9, 0.8], [0.95, 0.1]] row 0 is the best row of column 1 only and is
    matched to it, although its largest entry is in column 0. *)
Lemma forced_column_misses_row_max :
  ~ (forall (thresholds : list Float.t) (match_values : list Z)
            (force : bool) (self : t) (dt : Float.dtype) (s : similarity),
        __init__ true thresholds match_values force = Ok self ->
        shape_ok s = true ->
        1 <= num_cols_of s ->
        unit_entries s = true ->
        exists o,
          call self dt s = Ok o /\
          rowwise (fun row c =>
                     attains_row_max row c
                     /\ (c < Z.of_nat (num_cols_of s))%Z)
                  any_value s o).
Proof.
  intros H.
  destruct (H [tenth 5] [0%Z; 1%Z] true
              (Build [0%Z; 1%Z] [Float.NInf; tenth 5; Float.PInf] true)
              Float.float32
              (Rank2 2 2 [[tenth 9; tenth 8]; [Float.Fin (95 # 100); tenth 1]]))
    as (o & Hcall & Hrows); try reflexivity; [simpl; lia |].
  clear H. vm_compute in Hcall. injection Hcall as <-.
  simpl in Hrows. destruct Hrows as [Hcols _].
  inversion Hcols as [| row c rows cs [Hmax _] _]; subst.
  destruct Hmax as (_ & _ & Hmax).
  specialize (Hmax (tenth 9) (or_introl eq_refl)).
  vm_compute in Hmax. discriminate.
Qed.


(* ---------------- empty columns ---------------- *)

(** C10. On a similarity matrix with no column, [call] returns zeros for
    the matched columns and [-1] for the matched values, of shape
    [[batch_size, num_rows]] (or [[num_rows]] for a rank-2 input), whatever
    the layer's [match_values]. *)
Theorem empty_columns_all_unmatched (self : t) (dt : Float.dtype) :
  (forall batch_size num_rows data,
      call self dt (Rank3 batch_size num_rows 0 data)
      = Ok (Matches2 (repeat (repeat 0%Z num_rows) batch_size)
                     (repeat (repeat (-1)%Z num_rows) batch_size)))
  /\ (forall num_rows data,
         call self dt (Rank2 num_rows 0 data)
         = Ok (Matches1 (repeat 0%Z num_rows) (repeat (-1)%Z num_rows))).
Proof.
  split; intros; unfold call, cond_num_boxes, _match_when_cols_are_empty,
    ops.neg2, ops.ones2, ops.zeros2; simpl; now rewrite !map_repeat.
Qed.

(* ---------------- batch elements ---------------- *)

Lemma threshold_step_cons (dt : Float.dtype) (v : list Float.t)
      (V : list (list Float.t))
      (z : list Z) (Zs : list (list Z)) (item : Z * Float.t * Float.t) :
  threshold_step dt (v :: V) (z :: Zs) item
  = hd [] (threshold_step dt [v] [z] item) :: threshold_step dt V Zs item.
Proof. destruct item as [[ind low] high]. reflexivity. Qed.

Lemma threshold_step_single (dt : Float.dtype) (v : list Float.t)
      (z : list Z)
      (item : Z * Float.t * Float.t) :
  threshold_step dt [v] [z] item = [hd [] (threshold_step dt [v] [z] item)].
Proof. destruct item as [[ind low] high]. reflexivity. Qed.

Lemma threshold_loop_cons (dt : Float.dtype)
      (items : list (Z * Float.t * Float.t)) :
  forall (v : list Float.t) (V : list (list Float.t))
         (z : list Z) (Zs : list (list Z)),
    fold_left (threshold_step dt (v :: V)) items (z :: Zs)
    = hd [] (fold_left (threshold_step dt [v]) items [z])
      :: fold_left (threshold_step dt V) items Zs.
Proof.
  induction items as [| item items IH]; intros v V z Zs.
  - reflexivity.
  - simpl fold_left.
    rewrite threshold_step_cons, IH.
    now rewrite <- threshold_step_single.
Qed.

Lemma threshold_loop_single (dt : Float.dtype)
      (items : list (Z * Float.t * Float.t)) (v : list Float.t) :
  forall z, exists w, fold_left (threshold_step dt [v]) items [z] = [w].
Proof.
  induction items as [| item items IH]; intros z; simpl.
  - now exists z.
  - rewrite threshold_step_single. apply IH.
Qed.

Lemma cond_num_boxes_error (self : t) (dt : Float.dtype) (B R C : nat)
      (data : list (list (list Float.t))) :
  match static_error self R C with
  | Some e => cond_num_boxes self dt B R C data = Raise e
  | None => exists r, cond_num_boxes self dt B R C data = Ok r
  end.
Proof.
  unfold static_error, cond_num_boxes, _match_when_cols_are_non_empty,
    _match_when_cols_are_empty, ops.argmax_axis1, ops.max_axis1.
  destruct (0 <? C); [| eexists; reflexivity].
  destruct (force_match_for_each_col self); [| eexists; reflexivity].
  destruct (R =? 0); [reflexivity |].
  replace (C + 1 =? 0) with false by (symmetry; apply Nat.eqb_neq; lia).
  simpl.
  destruct (last_item (match_values self)); simpl;
    [eexists; reflexivity | reflexivity].
Qed.

#[local] Arguments threshold_step : simpl never.

Lemma cond_num_boxes_cons (self : t) (dt : Float.dtype) (B R C : nat)
      (m : list (list Float.t)) (rest : list (list (list Float.t))) :
  cond_num_boxes self dt (S B) R C (m :: rest)
  = (r1 <- cond_num_boxes self dt 1 R C [m] ;;
     r2 <- cond_num_boxes self dt B R C rest ;;
     Ok (hd [] (fst r1) :: fst r2, hd [] (snd r1) :: snd r2)).
Proof.
  unfold cond_num_boxes.
  destruct (0 <? C); [| reflexivity].
  unfold _match_when_cols_are_non_empty, ops.argmax_axis1, ops.max_axis1.
  replace (C + 1 =? 0) with false by (symmetry; apply Nat.eqb_neq; lia).
  destruct (force_match_for_each_col self).
  - destruct (R =? 0); [reflexivity |].
    simpl.
    destruct (last_item (match_values self)) as [p | e]; [| reflexivity].
    unfold ops.zeros2. simpl. rewrite threshold_loop_cons.
    match goal with
    | |- context [fold_left (threshold_step dt [?v]) ?items [?z]] =>
        destruct (threshold_loop_single dt items v z) as [w ->]
    end.
    reflexivity.
  - unfold ops.zeros2. simpl. rewrite threshold_loop_cons.
    match goal with
    | |- context [fold_left (threshold_step dt [?v]) ?items [?z]] =>
        destruct (threshold_loop_single dt items v z) as [w ->]
    end.
    reflexivity.
Qed.

Lemma cond_num_boxes_slice (self : t) (dt : Float.dtype) (R C : nat) :
  static_error self R C = None ->
  forall (data : list (list (list Float.t))) (B b : nat),
    length data = B -> b < B ->
    exists r1 r,
      cond_num_boxes self dt 1 R C [nth b data []] = Ok r1 /\
      cond_num_boxes self dt B R C data = Ok r /\
      nth b (fst r) [] = hd [] (fst r1) /\
      nth b (snd r) [] = hd [] (snd r1).
Proof.
  intros Hok.
  induction data as [| m rest IH]; intros B b HB Hb; simpl in HB; [lia |].
  destruct B as [| B]; [lia |].
  rewrite (cond_num_boxes_cons self dt B R C m rest).
  pose proof (cond_num_boxes_error self dt 1 R C [m]) as H1.
  pose proof (cond_num_boxes_error self dt B R C rest) as H2.
  rewrite Hok in H1, H2.
  destruct H1 as [r1 H1], H2 as [r2 H2].
  destruct b as [| b].
  - exists r1. exists (hd [] (fst r1) :: fst r2, hd [] (snd r1) :: snd r2).
    cbn [nth]. rewrite H1, H2. simpl.
    repeat split; reflexivity.
  - destruct (IH B b) as (s1 & s & Hs1 & Hs & Hc & Hv); [lia | lia |].
    rewrite H2 in Hs. injection Hs as <-.
    exists s1. exists (hd [] (fst r1) :: fst r2, hd [] (snd r1) :: snd r2).
    cbn [nth]. rewrite H1, H2. simpl.
    repeat split; assumption.
Qed.

(** C8. Batch element [b] of the result on a rank-3 input is the result on
    slice [b] of the input; in particular the result on a rank-2 matrix is
    that on the matrix with a leading axis of size one, with that axis
    removed. *)
Theorem batch_elements_independent
        (self : t) (dt : Float.dtype) (batch_size num_rows num_cols : nat)
        (data : list (list (list Float.t))) (b : nat) :
  length data = batch_size ->
  b < batch_size ->
  call self dt (Rank2 num_rows num_cols (nth b data []))
  = (o <- call self dt (Rank3 batch_size num_rows num_cols data) ;;
     batch_item b o)
  /\ call self dt (Rank2 num_rows num_cols (nth b data []))
     = (o <- call self dt (Rank3 1 num_rows num_cols
                              (ops.expand_dims (nth b data []))) ;;
        batch_item 0 o).
Proof.
  intros HB Hb. unfold call, ops.expand_dims.
  destruct (static_error self num_rows num_cols) as [e |] eqn:Herr.
  - pose proof (cond_num_boxes_error self dt 1 num_rows num_cols
                                     [nth b data []]) as H1.
    pose proof (cond_num_boxes_error self dt batch_size num_rows num_cols data)
      as H2.
    rewrite Herr in H1, H2. rewrite H1, H2. split; reflexivity.
  - destruct (@cond_num_boxes_slice self dt num_rows num_cols Herr data
                                    batch_size b HB Hb)
      as (r1 & r & H1 & H2 & Hc & Hv).
    rewrite H1, H2. destruct r1 as [c1 v1], r as [cs vs]. simpl in *.
    rewrite Hc, Hv. split; [reflexivity |].
    destruct c1, v1; reflexivity.
Qed.

Lemma batch_elements_independent_witness :
  let self := Build [0%Z; 1%Z] [Float.NInf; tenth 5; Float.PInf] true in
  let dt := Float.float32 in
  let data := [[[tenth 9; tenth 8]; [tenth 1; tenth 2]];
               [[tenth 1; tenth 1]; [tenth 3; tenth 2]]] in
  call self dt (Rank2 2 2 (nth 1 data []))
  = (o <- call self dt (Rank3 2 2 2 data) ;; batch_item 1 o)
  /\ call self dt (Rank2 2 2 (nth 1 data []))
     = (o <- call self dt (Rank3 1 2 2 (ops.expand_dims (nth 1 data []))) ;;
        batch_item 0 o).
Proof.
  intros self dt data.
  apply (@batch_elements_independent self dt 2 2 2 data 1);
    [reflexivity | lia].
Defined.

(* ---------------- forced matches ---------------- *)

(** C3 (failing input). On [[0.9, 0.8], [0.1, 0.2]] with threshold 0.5
    and [force_match_for_each_col=True], in any dtype, row 0 is the best
    row of both columns.  It is matched to column 0; row 1 keeps its own
    match, column 1 with the negative value, so that no row is matched to
    column 1 with the positive value, against the guarantee the class
    documents for this flag. *)
Theorem force_match_leaves_column_unmatched :
  let self := Build [0%Z; 1%Z] [Float.NInf; tenth 5; Float.PInf] true in
  let s := Rank2 2 2 [[tenth 9; tenth 8]; [tenth 1; tenth 2]] in
  __init__ true [tenth 5] [0%Z; 1%Z] true = Ok self /\
  shape_ok s = true /\ unit_entries s = true /\
  (forall dt, call self dt s = Ok (Matches1 [0%Z; 1%Z] [1%Z; 0%Z])) /\
  forall r, r < 2 ->
    ~ (nth r [0%Z; 1%Z] 0%Z = 1%Z
       /\ nth r [1%Z; 0%Z] 0%Z = last (match_values self) 0%Z).
Proof.
  intros self s.
  repeat split; try reflexivity.
  - intros dt. destruct dt; vm_compute; reflexivity.
  - intros r Hr [Hc Hv].
    destruct r as [| [| r]]; simpl in *; try discriminate; lia.
Qed.

(** The column of [-1] added to the matrix takes part in the forced
    matching: its best row is row 0, and when row 0 is the best row of no
    real column, row 0 is matched to the index of the added column. *)
Lemma forced_match_selects_padding_column (dt : Float.dtype) :
  call (Build [0%Z; 1%Z] [Float.NInf; tenth 5; Float.PInf] true) dt
       (Rank2 2 1 [[tenth 1]; [tenth 9]])
  = Ok (Matches1 [1%Z; 0%Z] [1%Z; 1%Z]).
Proof. destruct dt; vm_compute; reflexivity. Qed.

End MatcherProofs.

(* ================================================================== *)
(** * MultiSegmentPacker: proofs *)
(* ================================================================== *)

Module PackerProofs.
Import MultiSegmentPacker PackerSpec.

Section RoundRobin.

Lemma round_robin_pass_spec (segs : list (nat * nat)) :
  forall budget,
    let '(b, segs') := round_robin_pass budget segs in
    map fst segs' = map fst segs
    /\ b + kept_total segs' = budget + kept_total segs
    /\ b <= budget
    /\ (within segs -> within segs')
    /\ (b = budget -> segs' = segs /\ (budget = 0 \/ exhausted segs)).
Proof.
  unfold kept_total, within, exhausted.
  induction segs as [| [len kept] rest IH]; intros budget; simpl.
  - repeat split; auto.
  - destruct budget as [| budget].
    + repeat split; auto.
    + destruct (kept <? len) eqn:E.
      * specialize (IH budget).
        destruct (round_robin_pass budget rest) as [b rest'].
        destruct IH as (Hf & Hsum & Hle & Hw & Hstop). simpl.
        split; [now rewrite Hf |]. split; [lia |]. split; [lia |]. split.
        -- intros Hin. inversion Hin as [| ? ? Hh Ht]; subst. simpl in Hh.
           apply Nat.ltb_lt in E.
           constructor; [simpl; lia | auto].
        -- intros Hb. exfalso. lia.
      * specialize (IH (S budget)).
        destruct (round_robin_pass (S budget) rest) as [b rest'].
        destruct IH as (Hf & Hsum & Hle & Hw & Hstop). simpl.
        split; [now rewrite Hf |]. split; [lia |]. split; [lia |]. split.
        -- intros Hin. inversion Hin as [| ? ? Hh Ht]; subst.
           constructor; auto.
        -- intros Hb. destruct (Hstop Hb) as [-> Hex].
           split; [reflexivity |]. right.
           destruct Hex as [Hex | Hex]; [discriminate |].
           constructor; [| exact Hex].
           simpl. apply Nat.ltb_ge in E. exact E.
Qed.

Lemma round_robin_loop_spec (fuel : nat) :
  forall budget segs,
    budget <= fuel ->
    let segs' := round_robin_loop fuel budget segs in
    map fst segs' = map fst segs
    /\ (within segs -> within segs')
    /\ exists b,
        b + kept_total segs' = budget + kept_total segs
        /\ (b = 0 \/ exhausted segs').
Proof.
  induction fuel as [| fuel IH]; intros budget segs Hfuel; simpl.
  - repeat split; auto. exists 0. split; [lia | now left].
  - pose proof (round_robin_pass_spec segs budget) as Hpass.
    destruct (round_robin_pass budget segs) as [b segs'].
    destruct Hpass as (Hf & Hsum & Hle & Hw & Hstop).
    destruct (b =? budget) eqn:E.
    + apply Nat.eqb_eq in E. destruct (Hstop E) as [-> Hend].
      repeat split; auto. exists budget. split; [lia |].
      destruct Hend; [left; lia | now right].
    + apply Nat.eqb_neq in E.
      assert (Hb : b <= fuel) by lia.
      destruct (IH b segs' Hb) as (Hf' & Hw' & bf & Hsum' & Hend).
      split; [congruence |]. split; [auto |].
      exists bf. split; [lia | exact Hend].
Qed.

Lemma within_exhausted_total (segs : list (nat * nat)) :
  within segs -> exhausted segs -> kept_total segs = total (map fst segs).
Proof.
  unfold within, exhausted, kept_total.
  induction segs as [| [len kept] rest IH]; intros Hw He; simpl;
    [reflexivity |].
  inversion Hw; inversion He; subst. simpl in *.
  rewrite IH by assumption. lia.
Qed.

Lemma within_total (segs : list (nat * nat)) :
  within segs -> kept_total segs <= total (map fst segs).
Proof.
  unfold within, kept_total.
  induction segs as [| [len kept] rest IH]; intros Hw; simpl; [lia |].
  inversion Hw; subst. simpl in *. specialize (IH H2). lia.
Qed.

Lemma map_fst_fresh (lens : list nat) :
  map fst (map (fun n => (n, 0)) lens) = lens
  /\ kept_total (map (fun n => (n, 0)) lens) = 0
  /\ within (map (fun n => (n, 0)) lens).
Proof.
  unfold kept_total, within.
  induction lens as [| n lens (H1 & H2 & H3)]; simpl.
  - repeat split; constructor.
  - repeat split; [now rewrite H1 | exact H2 |].
    constructor; [simpl; lia | exact H3].
Qed.

(** The round-robin allocation never exceeds a segment, and hands out the
    whole budget unless all segments are exhausted first. *)
Lemma round_robin_kept_spec (budget : nat) (lens : list nat) :
  length (round_robin_kept budget lens) = length lens
  /\ Forall2 le (round_robin_kept budget lens) lens
  /\ total (round_robin_kept budget lens) = Nat.min budget (total lens).
Proof.
  unfold round_robin_kept.
  destruct (map_fst_fresh lens) as (Hfst & Hzero & Hwithin).
  destruct (@round_robin_loop_spec budget budget
              (map (fun n => (n, 0)) lens) (le_n _))
    as (Hf & Hw & b & Hsum & Hend).
  specialize (Hw Hwithin).
  set (segs := round_robin_loop budget budget (map (fun n => (n, 0)) lens))
    in *.
  rewrite Hfst in Hf. rewrite Hzero in Hsum.
  split; [| split].
  - rewrite length_map, <- (length_map fst), Hf. reflexivity.
  - rewrite <- Hf. clear - Hw. unfold within in Hw.
    induction Hw as [| p l Hp Hw IH]; simpl; constructor; auto.
  - fold (kept_total segs).
    pose proof (within_total Hw) as Hle. rewrite Hf in Hle.
    destruct Hend as [-> | Hex].
    + lia.
    + pose proof (within_exhausted_total Hw Hex) as Heq.
      rewrite Hf in Heq. lia.
Qed.

End RoundRobin.

Section PackerFacts.
Variable T : Type.
Variable self : t T.

Lemma length_firstn_le (A : Type) (k : nat) (s : list A) :
  k <= length s -> length (firstn k s) = k.
Proof. intros H. rewrite length_firstn. lia. Qed.

Lemma is_prefix_firstn (k : nat) (s : list T) : is_prefix (firstn k s) s.
Proof.
  unfold is_prefix. rewrite length_firstn.
  destruct (Nat.le_ge_cases k (length s)) as [H | H].
  - now rewrite Nat.min_l by exact H.
  - rewrite Nat.min_r by exact H.
    now rewrite !firstn_all2 by lia.
Qed.

Lemma waterfall_trim_spec (segments : list (list T)) :
  forall budget,
    Forall2 (@is_prefix T) (waterfall_trim budget segments) segments
    /\ total (map (@length T) (waterfall_trim budget segments))
       = Nat.min budget (total (map (@length T) segments)).
Proof.
  induction segments as [| s rest IH]; intros budget; simpl.
  - split; [constructor | lia].
  - destruct (IH (budget - Nat.min budget (length s))) as [Hp Ht].
    split; [constructor; [apply is_prefix_firstn | exact Hp] |].
    rewrite Ht, length_firstn. lia.
Qed.

Lemma zip_firstn_spec (segments : list (list T)) :
  forall kept,
    Forall2 le kept (map (@length T) segments) ->
    Forall2 (@is_prefix T) (ops.zip_with (@firstn T) kept segments) segments
    /\ map (@length T) (ops.zip_with (@firstn T) kept segments) = kept.
Proof.
  induction segments as [| s rest IH]; intros kept Hk; simpl in Hk;
    inversion Hk as [| k ? kept' ? Hle Hrest]; subst; simpl.
  - split; [constructor | reflexivity].
  - destruct (IH kept' Hrest) as [Hp Hl].
    split; [constructor; [apply is_prefix_firstn | exact Hp] |].
    now rewrite Hl, length_firstn_le.
Qed.

Lemma round_robin_trim_spec (budget : nat) (segments : list (list T)) :
  Forall2 (@is_prefix T) (round_robin_trim budget segments) segments
  /\ total (map (@length T) (round_robin_trim budget segments))
     = Nat.min budget (total (map (@length T) segments)).
Proof.
  unfold round_robin_trim.
  destruct (round_robin_kept_spec budget (map (@length T) segments))
    as (_ & Hle & Htot).
  destruct (zip_firstn_spec segments Hle) as [Hp Hl].
  split; [exact Hp | now rewrite Hl].
Qed.

Lemma trim_inputs_spec (inputs : list (list T)) :
  Forall2 (@is_prefix T) (_trim_inputs self inputs) inputs
  /\ total (map (@length T) (_trim_inputs self inputs))
     = Nat.min (sequence_length self - num_special_tokens self (length inputs))
               (total (map (@length T) inputs)).
Proof.
  unfold _trim_inputs.
  destruct (truncate self);
    [apply round_robin_trim_spec | apply waterfall_trim_spec].
Qed.

Lemma combine_from_length (segments : list (list T)) :
  forall i,
    segments <> [] ->
    length (fst (combine_from self i segments))
    = total (map (@length T) segments)
      + (length segments - 1) * length (sep_value self)
      + length (end_value self)
    /\ length (snd (combine_from self i segments))
       = length (fst (combine_from self i segments)).
Proof.
  induction segments as [| s rest IH]; intros i Hne; [congruence |].
  destruct rest as [| s' rest].
  - simpl. rewrite length_app, repeat_length. lia.
  - destruct (IH (S i)) as [Ht Hs]; [discriminate |].
    change (combine_from self i (s :: s' :: rest))
      with (let '(toks, ids) := combine_from self (S i) (s' :: rest) in
            (s ++ sep_value self ++ toks,
             repeat (Z.of_nat i) (length s + length (sep_value self)) ++ ids)).
    destruct (combine_from self (S i) (s' :: rest)) as [toks ids].
    simpl fst in *. simpl snd in *.
    rewrite !length_app, repeat_length, Hs, Ht.
    simpl length. simpl map. simpl total. lia.
Qed.

Lemma combine_inputs_length (segments : list (list T)) :
  segments <> [] ->
  length (fst (_combine_inputs self segments))
  = num_special_tokens self (length segments)
    + total (map (@length T) segments)
  /\ length (snd (_combine_inputs self segments))
     = length (fst (_combine_inputs self segments)).
Proof.
  intros Hne. unfold _combine_inputs, num_special_tokens.
  destruct (combine_from_length 0 Hne) as [Ht Hs].
  destruct (combine_from self 0 segments) as [toks ids].
  simpl fst in *. simpl snd in *.
  rewrite !length_app, repeat_length, Hs, Ht. lia.
Qed.

Lemma pad_length (A : Type) (x : list A) (n : nat) (s : side) (v : A) :
  length (pad x n s v) = n.
Proof.
  unfold pad, to_dense.
  destruct s; rewrite ?length_rev, length_app, length_firstn, repeat_length,
    ?length_rev; lia.
Qed.

Lemma pad_short (A : Type) (x : list A) (n : nat) (s : side) (v : A) :
  length x <= n -> pad x n s v = pad_with s v (n - length x) x.
Proof.
  intros H. unfold pad, to_dense, pad_with. destruct s.
  - rewrite firstn_all2 by (rewrite length_rev; lia).
    rewrite rev_app_distr, rev_involutive, length_rev.
    f_equal. clear. induction (n - length x) as [| k IH]; simpl;
      [reflexivity |].
    rewrite IH. clear. induction k; simpl; [reflexivity | congruence].
  - now rewrite firstn_all2 by lia.
Qed.

Lemma Forall2_length_eq (A B : Type) (P : A -> B -> Prop)
      (l1 : list A) (l2 : list B) :
  Forall2 P l1 l2 -> length l1 = length l2.
Proof. induction 1; simpl; congruence. Qed.

End PackerFacts.

Section PackerTheorems.
Variable T : Type.
Variable self : t T.

Lemma pack_example_lengths (ex : list (list T)) :
  length (fst (pack_example self ex)) = sequence_length self
  /\ length (snd (pack_example self ex)) = sequence_length self.
Proof.
  unfold pack_example.
  destruct (_combine_inputs self (_trim_inputs self ex)) as [toks ids].
  simpl. now rewrite !pad_length.
Qed.

Lemma trim_inputs_not_nil (ex : list (list T)) :
  ex <> [] -> _trim_inputs self ex <> []
              /\ length (_trim_inputs self ex) = length ex.
Proof.
  intros Hne. destruct (trim_inputs_spec self ex) as [Hp _].
  apply Forall2_length_eq in Hp. split; [| exact Hp].
  destruct ex; [congruence |].
  destruct (_trim_inputs self (l :: ex)); simpl in Hp; [lia | discriminate].
Qed.

Lemma prefix_all (kept ex : list (list T)) :
  Forall2 (@is_prefix T) kept ex ->
  total (map (@length T) kept) = total (map (@length T) ex) ->
  kept = ex.
Proof.
  unfold is_prefix.
  induction 1 as [| k s kept ex Hk Hrest IH]; intros Ht; [reflexivity |].
  simpl in Ht.
  assert (Hle : length k <= length s).
  { rewrite Hk, length_firstn. lia. }
  assert (Hrest_le : total (map (@length T) kept)
                     <= total (map (@length T) ex)).
  { clear - Hrest. induction Hrest as [| k s kept ex Hk _ IH]; simpl; [lia |].
    unfold is_prefix in Hk.
    assert (length k <= length s) by (rewrite Hk, length_firstn; lia). lia. }
  f_equal.
  - rewrite Hk. apply firstn_all2. lia.
  - apply IH. lia.
Qed.

Lemma pack_example_spec (ex : list (list T)) :
  ex <> [] -> packed_as self ex (pack_example self ex).
Proof.
  intros Hne. unfold packed_as, packed_length.
  destruct (trim_inputs_spec self ex) as [Hp Ht].
  destruct (trim_inputs_not_nil Hne) as [Hkne Hklen].
  destruct (combine_inputs_length self Hkne) as [Hct Hcs].
  rewrite Hklen, Ht in Hct.
  unfold pack_example.
  split.
  - intros Hshort.
    assert (Hall : _trim_inputs self ex = ex).
    { apply prefix_all; [exact Hp | rewrite Ht; lia]. }
    rewrite Hall in *.
    destruct (_combine_inputs self ex) as [toks ids].
    simpl fst in *. simpl snd in *.
    rewrite !pad_short by lia.
    rewrite Hcs, Hct. f_equal; f_equal; lia.
  - intros Hlong Hroom.
    exists (_trim_inputs self ex).
    split; [exact Hp |]. split; [rewrite Ht; lia |].
    destruct (_combine_inputs self (_trim_inputs self ex)) as [toks ids].
    simpl fst in *. simpl snd in *.
    rewrite !pad_short by lia.
    replace (sequence_length self - length toks) with 0 by lia.
    replace (sequence_length self - length ids) with 0 by lia.
    unfold pad_with. destruct (padding_side self); simpl;
      now rewrite ?app_nil_r.
Qed.

Lemma combine_fst_snd (A B : Type) (l : list (A * B)) :
  combine (map fst l) (map snd l) = l.
Proof.
  induction l as [| [a b] l IH]; simpl; [reflexivity | now rewrite IH].
Qed.

Lemma call_rows (i : input T) :
  rows (call self i) = map (pack_example self) (examples i).
Proof.
  destruct i as [x | x | x more | x more]; simpl.
  - now destruct (pack_example self [x]).
  - unfold pack_batch. simpl. now rewrite combine_fst_snd, map_map.
  - now destruct (pack_example self (x :: more)).
  - unfold pack_batch. simpl. now rewrite combine_fst_snd, map_map.
Qed.

Lemma examples_not_nil (i : input T) :
  Forall (fun ex => ex <> []) (examples i).
Proof.
  destruct i as [x | x | x more | x more]; simpl.
  - repeat constructor. discriminate.
  - apply Forall_map, Forall_forall. intros b _. discriminate.
  - repeat constructor. discriminate.
  - apply Forall_map, Forall_forall. intros b _. discriminate.
Qed.

(** C4. Whatever the input, every returned row of [token_ids] and of
    [segment_ids] has exactly [sequence_length] elements, one row per
    example.  An example whose packed length fits is returned whole,
    followed (right padding) or preceded (left padding) by [pad_value],
    with segment id 0 on the padding; an example whose packed length
    exceeds [sequence_length] is returned with every segment cut to a
    prefix, the prefixes filling the room the special tokens leave. *)
Theorem packer_rows_have_sequence_length (i : input T) :
  Forall (fun r => length (fst r) = sequence_length self
                   /\ length (snd r) = sequence_length self)
         (rows (call self i))
  /\ Forall2 (packed_as self) (examples i) (rows (call self i)).
Proof.
  rewrite call_rows. split.
  - apply Forall_map, Forall_forall. intros ex _.
    apply pack_example_lengths.
  - pose proof (examples_not_nil i) as Hne.
    induction Hne as [| ex exs Hex _ IH]; simpl; constructor;
      [now apply pack_example_spec | exact IH].
Qed.

End PackerTheorems.

Section PairOfSegments.

Lemma round_robin_pass_pair (b l1 k1 l2 k2 : nat) :
  k1 <= l1 -> k2 <= l2 -> balanced_start l1 l2 k1 k2 ->
  exists b' k1' k2',
    round_robin_pass b [(l1, k1); (l2, k2)] = (b', [(l1, k1'); (l2, k2')])
    /\ k1' <= l1 /\ k2' <= l2
    /\ balanced_final l1 l2 k1' k2'
    /\ (0 < b' -> balanced_start l1 l2 k1' k2').
Proof.
  unfold balanced_final, balanced_start. intros H1 H2 [Ha Hb].
  destruct b as [| [| b]]; simpl.
  - exists 0, k1, k2. repeat split; auto; lia.
  - destruct (Nat.ltb_spec k1 l1) as [E1 | E1]; simpl.
    + exists 0, (S k1), k2. repeat split; auto; lia.
    + destruct (Nat.ltb_spec k2 l2) as [E2 | E2]; simpl.
      * exists 0, k1, (S k2). repeat split; auto; lia.
      * exists 1, k1, k2. repeat split; auto; lia.
  - destruct (Nat.ltb_spec k1 l1) as [E1 | E1]; simpl;
      destruct (Nat.ltb_spec k2 l2) as [E2 | E2]; simpl.
    + exists b, (S k1), (S k2). repeat split; auto; lia.
    + exists (S b), (S k1), k2. repeat split; auto; lia.
    + exists (S b), k1, (S k2). repeat split; auto; lia.
    + exists (S (S b)), k1, k2. repeat split; auto; lia.
Qed.

Lemma round_robin_loop_pair (l1 l2 : nat) (fuel : nat) :
  forall b k1 k2,
    k1 <= l1 -> k2 <= l2 ->
    balanced_final l1 l2 k1 k2 ->
    (0 < b -> balanced_start l1 l2 k1 k2) ->
    exists k1' k2',
      round_robin_loop fuel b [(l1, k1); (l2, k2)] = [(l1, k1'); (l2, k2')]
      /\ balanced_final l1 l2 k1' k2'.
Proof.
  induction fuel as [| fuel IH]; intros b k1 k2 H1 H2 Hf Hs.
  - exists k1, k2. split; [reflexivity | exact Hf].
  - destruct b as [| b].
    + exists k1, k2. split; [reflexivity | exact Hf].
    + destruct (@round_robin_pass_pair (S b) l1 k1 l2 k2 H1 H2)
        as (b' & k1' & k2' & Hpass & H1' & H2' & Hf' & Hs');
        [apply Hs; lia |].
      cbn [round_robin_loop]. rewrite Hpass.
      destruct (b' =? S b).
      * exists k1', k2'. split; [reflexivity | exact Hf'].
      * apply IH; assumption.
Qed.

(** For two segments round-robin keeps [k1] and [k2] tokens with the
    first segment at most one token ahead, unless a segment ran out. *)
Lemma round_robin_kept_pair (budget l1 l2 : nat) :
  exists k1 k2,
    round_robin_kept budget [l1; l2] = [k1; k2]
    /\ k1 <= l1 /\ k2 <= l2
    /\ k1 + k2 = Nat.min budget (l1 + l2)
    /\ balanced_final l1 l2 k1 k2.
Proof.
  destruct (round_robin_kept_spec budget [l1; l2]) as (_ & Hle & Htot).
  unfold round_robin_kept in *. simpl map in *.
  destruct (@round_robin_loop_pair l1 l2 budget budget 0 0)
    as (k1 & k2 & Hloop & Hbal);
    [lia | lia | unfold balanced_final; lia | unfold balanced_start; lia |].
  rewrite Hloop in *. simpl in *.
  exists k1, k2. split; [reflexivity |].
  inversion Hle as [| ? ? ? ? Hk1 Hrest]; subst.
  inversion Hrest as [| ? ? ? ? Hk2 _]; subst.
  repeat split; try assumption; try lia; apply Hbal.
Qed.

End PairOfSegments.

Section PairTheorems.
Variable T : Type.
Variable self : t T.

(** C5. When two segments do not fit, ["waterfall"] keeps as much of the
    first segment as the budget allows and gives the second what is left,
    so that the second keeps a token only once the first is whole;
    ["round_robin"] hands the budget out one token at a time, first
    segment first, so that the kept counts differ by at most one unless a
    segment is exhausted. *)
Theorem truncation_strategies (x y : list T) :
  sequence_length self < packed_length self [x; y] ->
  let budget := sequence_length self - num_special_tokens self 2 in
  (truncate self = waterfall ->
   let k1 := Nat.min budget (length x) in
   _trim_inputs self [x; y] = [firstn k1 x; firstn (budget - k1) y]
   /\ (0 < budget - k1 -> k1 = length x))
  /\ (truncate self = round_robin ->
      exists k1 k2,
        _trim_inputs self [x; y] = [firstn k1 x; firstn k2 y]
        /\ k1 <= length x /\ k2 <= length y
        /\ k1 + k2 = budget
        /\ (k1 < length x -> k2 <= k1)
        /\ (k2 < length y -> k1 <= k2 + 1)).
Proof.
  unfold packed_length. simpl. intros Hlong. split; intros Htr.
  - unfold _trim_inputs. rewrite Htr. simpl.
    split; [| lia].
    set (b := sequence_length self - num_special_tokens self 2).
    set (k := Nat.min b (length x)).
    replace (Nat.min (b - k) (length y)) with (b - k) by (unfold k, b; lia).
    reflexivity.
  - unfold _trim_inputs. rewrite Htr. simpl.
    unfold round_robin_trim. simpl map.
    destruct (round_robin_kept_pair
                (sequence_length self - num_special_tokens self 2)
                (length x) (length y))
      as (k1 & k2 & Hk & H1 & H2 & Hsum & Hb1 & Hb2).
    rewrite Hk. simpl.
    exists k1, k2. repeat split; try assumption. lia.
Qed.

End PairTheorems.

Open Scope string_scope.

Lemma truncation_strategies_witness :
  let wf := __init__ 7 (One "[CLS]") (One "[SEP]") None "[PAD]"
                 (Some waterfall) None in
  let rr := __init__ 7 (One "[CLS]") (One "[SEP]") None "[PAD]"
                 (Some round_robin) None in
  _trim_inputs wf [["a"; "b"; "c"]; ["x"; "y"; "z"]]
  = [["a"; "b"; "c"]; ["x"]]
  /\ _trim_inputs rr [["a"; "b"; "c"]; ["x"; "y"; "z"]]
     = [["a"; "b"]; ["x"; "y"]].
Proof.
  intros wf rr. split.
  - destruct (@truncation_strategies _ wf ["a"; "b"; "c"] ["x"; "y"; "z"])
      as [Hw _]; [vm_compute; lia |].
    destruct (Hw eq_refl) as [Heq _]. exact Heq.
  - destruct (@truncation_strategies _ rr ["a"; "b"; "c"] ["x"; "y"; "z"])
      as [_ Hr]; [vm_compute; lia |].
    destruct (Hr eq_refl) as (k1 & k2 & Heq & H1 & H2 & Hsum & Ha & Hb).
    simpl in H1, H2, Hsum, Ha, Hb.
    assert (k1 = 2 /\ k2 = 2) as [-> ->] by lia.
    exact Heq.
Defined.
Close Scope string_scope.

Section PairLayout.
Variable T : Type.
Variable self : t T.

Lemma pack_pair_spec (x y : list T) :
  num_special_tokens self 2 <= sequence_length self ->
  pair_packed_as self [x; y] (pack_example self [x; y]).
Proof.
  intros Hroom. unfold pair_packed_as.
  destruct (trim_inputs_spec self [x; y]) as [Hp Ht].
  inversion Hp as [| k1 ? ks ? Hk1 Hrest Heq]; subst.
  inversion Hrest as [| k2 ? ks' ? Hk2 Hnil Heq']; subst.
  inversion Hnil; subst.
  symmetry in Heq. rewrite Heq in Ht. simpl in Ht.
  exists x, y, k1, k2.
  split; [reflexivity |]. split; [first [exact Heq | reflexivity] |].
  split; [exact Hk1 |]. split; [exact Hk2 |].
  split; [lia |].
  unfold pack_example. rewrite Heq.
  unfold _combine_inputs. simpl combine_from. cbn [fst snd].
  rewrite !pad_short.
  - split.
    + f_equal. rewrite !length_app. unfold num_special_tokens. simpl. lia.
    + rewrite (app_assoc (repeat 0%Z _)), <- repeat_app.
      f_equal.
      * rewrite !length_app, !repeat_length.
        unfold num_special_tokens. simpl. lia.
      * f_equal. f_equal. lia.
  - rewrite !length_app, !repeat_length.
    unfold num_special_tokens in *. simpl in *. lia.
  - rewrite !length_app. unfold num_special_tokens in *. simpl in *. lia.
Qed.

(** C6 (amended). When [sequence_length] leaves room for the special
    tokens, every packed pair reads: [start_value], the kept tokens of the
    first segment, [sep_value], the kept tokens of the second segment,
    [end_value]; the segment ids are 0 up to and including the separator
    and 1 from there to the end value.  The padding, with segment id 0,
    follows this content under right padding and precedes it under left
    padding. *)
Theorem pair_layout (i : input T) :
  num_special_tokens self 2 <= sequence_length self ->
  Forall (fun ex => length ex = 2) (examples i) ->
  Forall2 (pair_packed_as self) (examples i) (rows (call self i)).
Proof.
  intros Hroom Hpairs. rewrite call_rows.
  induction Hpairs as [| ex exs Hex _ IH]; simpl; constructor; [| exact IH].
  destruct ex as [| x [| y [| z ex]]]; simpl in Hex; try discriminate.
  now apply pack_pair_spec.
Qed.

End PairLayout.

Open Scope string_scope.

Lemma pair_layout_witness :
  let self := __init__ 8 (One "<s>") (One "</s>") (Some (Many ["</s>"; "</s>"]))
                   "<pad>" (Some round_robin) (Some left) in
  let i := SegmentsBatch [["a"; "b"]; ["a"; "b"]] [[["x"; "y"]; ["x"]]] in
  Forall2 (pair_packed_as self) (examples i) (rows (call self i)).
Proof.
  intros self i.
  apply (@pair_layout _ self i).
  - vm_compute. lia.
  - repeat constructor.
Defined.

(** C6 (counterexample). With [padding_side="left"] a short pair comes
    out with the padding in front:
    ["[PAD]", "[CLS]", "a", "[SEP]", "x", "[SEP]"]. *)
Lemma left_padding_precedes_start_value :
  ~ (forall (self : t string) (x y : list string)
            (token_ids : list string) (segment_ids : list Z),
        call self (Segments x [y]) = Unbatched token_ids segment_ids ->
        firstn (length (start_value self)) token_ids = start_value self).
Proof.
  intros H.
  specialize (H (__init__ 6 (One "[CLS]") (One "[SEP]") None "[PAD]"
                      None (Some left))
                ["a"] ["x"] _ _ eq_refl).
  vm_compute in H. discriminate H.
Qed.
Close Scope string_scope.

(** ** The expectations of [multi_segment_packer_test.py] *)

Open Scope string_scope.
Open Scope Z_scope.

Example test_trim_single_input_ints :
  call (__init__ 8 (One 1) (One 2) None 0 None None)
       (Single [3; 4; 5; 6; 7; 8; 9])
  = Unbatched [1; 3; 4; 5; 6; 7; 8; 2] [0; 0; 0; 0; 0; 0; 0; 0]
  /\ call (__init__ 8 (One 1) (One 2) None 0 None (Some left))
          (Single [3; 4; 5; 6; 7; 8; 9])
     = Unbatched [1; 3; 4; 5; 6; 7; 8; 2] [0; 0; 0; 0; 0; 0; 0; 0].
Proof. split; reflexivity. Qed.

Example test_trim_single_input_strings :
  call (__init__ 5 (One "[CLS]") (One "[SEP]") None "" None None)
       (Single ["a"; "b"; "c"; "d"])
  = Unbatched ["[CLS]"; "a"; "b"; "c"; "[SEP]"] [0; 0; 0; 0; 0].
Proof. reflexivity. Qed.

Example test_trim_multiple_inputs_round_robin :
  call (__init__ 7 (One "[CLS]") (One "[SEP]") None "" (Some round_robin) None)
       (Segments ["a"; "b"; "c"] [["x"; "y"; "z"]])
  = Unbatched ["[CLS]"; "a"; "b"; "[SEP]"; "x"; "y"; "[SEP]"]
              [0; 0; 0; 0; 1; 1; 1].
Proof. reflexivity. Qed.

Example test_trim_multiple_inputs_waterfall :
  call (__init__ 7 (One "[CLS]") (One "[SEP]") None "" (Some waterfall)
             (Some left))
       (Segments ["a"; "b"; "c"] [["x"; "y"; "z"]])
  = Unbatched ["[CLS]"; "a"; "b"; "c"; "[SEP]"; "x"; "[SEP]"]
              [0; 0; 0; 0; 0; 1; 1].
Proof. reflexivity. Qed.

Example test_trim_batched_inputs_waterfall :
  call (__init__ 7 (One "[CLS]") (One "[SEP]") None "" (Some waterfall) None)
       (SegmentsBatch [["a"; "b"; "c"]; ["a"; "b"]]
                      [[["x"; "y"; "z"]; ["x"; "y"; "z"]]])
  = Batched [["[CLS]"; "a"; "b"; "c"; "[SEP]"; "x"; "[SEP]"];
             ["[CLS]"; "a"; "b"; "[SEP]"; "x"; "y"; "[SEP]"]]
            [[0; 0; 0; 0; 0; 1; 1]; [0; 0; 0; 0; 1; 1; 1]].
Proof. reflexivity. Qed.

Example test_pad_inputs :
  call (__init__ 6 (One "[CLS]") (One "[SEP]") None "[PAD]" None None)
       (Segments ["a"] [["x"]])
  = Unbatched ["[CLS]"; "a"; "[SEP]"; "x"; "[SEP]"; "[PAD]"]
              [0; 0; 0; 1; 1; 0]
  /\ call (__init__ 6 (One "[CLS]") (One "[SEP]") None "[PAD]" None (Some left))
          (Segments ["a"] [["x"]])
     = Unbatched ["[PAD]"; "[CLS]"; "a"; "[SEP]"; "x"; "[SEP]"]
                 [0; 0; 0; 0; 1; 1].
Proof. split; reflexivity. Qed.

Example test_pad_batched_inputs :
  call (__init__ 7 (One "[CLS]") (One "[SEP]") None "[PAD]" None (Some left))
       (SegmentsBatch [["a"]; ["a"]] [[["x"]; ["x"; "y"]]])
  = Batched [["[PAD]"; "[PAD]"; "[CLS]"; "a"; "[SEP]"; "x"; "[SEP]"];
             ["[PAD]"; "[CLS]"; "a"; "[SEP]"; "x"; "y"; "[SEP]"]]
            [[0; 0; 0; 0; 0; 1; 1]; [0; 0; 0; 0; 1; 1; 1]].
Proof. reflexivity. Qed.

Example test_list_special_tokens :
  call (__init__ 8 (One "<s>") (One "</s>") (Some (Many ["</s>"; "</s>"]))
             "<pad>" (Some round_robin) None)
       (SegmentsBatch [["a"; "b"]; ["a"; "b"]] [[["x"; "y"]; ["x"]]])
  = Batched [["<s>"; "a"; "b"; "</s>"; "</s>"; "x"; "y"; "</s>"];
             ["<s>"; "a"; "b"; "</s>"; "</s>"; "x"; "</s>"; "<pad>"]]
            [[0; 0; 0; 0; 0; 1; 1; 1]; [0; 0; 0; 0; 0; 1; 1; 0]].
Proof. reflexivity. Qed.

(** When [sequence_length] is smaller than the number of special tokens
    the row is cut inside them. *)
Example special_tokens_cut_when_no_room :
  call (__init__ 2%nat (One "[CLS]") (One "[SEP]") None "" None None)
       (Segments ["a"] [["x"]])
  = Unbatched ["[CLS]"; "[SEP]"] [0; 0].
Proof. reflexivity. Qed.

Close Scope Z_scope.
Close Scope string_scope.

End PackerProofs.

(* ================================================================== *)
(** * PaliGemmaBackbone: proofs *)
(* ================================================================== *)

Module BackboneProofs.

Section BackboneFacts.
Import PaliGemmaBackbone.

Variables real dtype_policy activation : Type.
Variables images token_ids mask tensor scalar : Type.
Variable ReversibleEmbedding :
  embedding_args dtype_policy -> token_ids -> tensor.
Variable PaliGemmaVit :
  vit_args dtype_policy activation -> images -> tensor.
Variable PaliGemmaDecoderBlock :
  decoder_block_args real dtype_policy -> tensor -> mask -> mask -> tensor.
Variable RMSNormalization : rms_args real dtype_policy -> tensor -> tensor.
Variable ops_sqrt : nat -> scalar.
Variable ops_multiply : tensor -> scalar -> tensor.
Variable ops_concatenate_axis1 : tensor -> tensor -> tensor.

Variable hp : hyperparameters real dtype_policy activation.

Lemma append_loop (A B : Type) (f : A -> B) (l : list A) :
  forall acc, fold_left (fun layers i => layers ++ [f i]) l acc
              = acc ++ map f l.
Proof.
  induction l as [| a l IH]; intros acc; simpl.
  - now rewrite app_nil_r.
  - now rewrite IH, <- app_assoc.
Qed.

Lemma transformer_layers_init :
  transformer_layers (__init__ hp)
  = map (make_layer hp) (seq 0 (num_layers hp)).
Proof. unfold __init__. simpl. now rewrite append_loop. Qed.

Lemma block_loop (pm rm : mask) (n : nat) :
  forall x,
    fold_left
      (fun x layer => PaliGemmaDecoderBlock layer x pm rm)
      (map (make_layer hp) (seq 0 n)) x
    = decoder_stack PaliGemmaDecoderBlock hp n pm rm x.
Proof.
  induction n as [| n IH]; intros x; [reflexivity |].
  rewrite seq_S, map_app, fold_left_app, IH. reflexivity.
Qed.

(** C7. The model built for [num_layers] holds exactly [num_layers]
    decoder blocks, block [i] being the one constructed at turn [i] of
    the loop, and maps its inputs to the final RMS normalization of the
    blocks applied in that order to the image embeddings of the ViT
    encoder followed, along the sequence axis, by the token embeddings
    scaled by [sqrt(hidden_dim)]. *)
Theorem backbone_composition (image : images) (tokens : token_ids)
        (padding_mask response_mask : mask) :
  let self := __init__ hp in
  length (transformer_layers self) = num_layers hp
  /\ (forall i, i < num_layers hp ->
        nth_error (transformer_layers self) i = Some (make_layer hp i))
  /\ model ReversibleEmbedding PaliGemmaVit PaliGemmaDecoderBlock
           RMSNormalization ops_sqrt ops_multiply ops_concatenate_axis1
           hp image tokens padding_mask response_mask
     = RMSNormalization (layer_norm self)
         (decoder_stack PaliGemmaDecoderBlock hp (num_layers hp)
            padding_mask response_mask
            (ops_concatenate_axis1
               (PaliGemmaVit (vit_encoder self) image)
               (ops_multiply
                  (ReversibleEmbedding (token_embedding self) tokens)
                  (ops_sqrt (hidden_dim hp))))).
Proof.
  intros self. unfold self.
  split; [| split].
  - now rewrite transformer_layers_init, length_map, length_seq.
  - intros i Hi. rewrite transformer_layers_init.
    rewrite nth_error_map, nth_error_seq.
    apply Nat.ltb_lt in Hi. now rewrite Hi.
  - unfold model, functional_model.
    rewrite transformer_layers_init, block_loop. reflexivity.
Qed.

End BackboneFacts.

End BackboneProofs.

(* ================================================================== *)
(** * BoxMatcher: configuration, errors and forced matching *)
(* ================================================================== *)

Module MatcherExtras.
Import BoxMatcher MatcherSpec MatcherProofs.

(* ---------------- more on the order and on argmax ---------------- *)

Lemma float_le_lt_trans (a b c : Float.t) :
  Float.leb a b = true -> Float.ltb b c = true -> Float.ltb a c = true.
Proof.
  intros Hab Hbc. unfold Float.ltb in *.
  destruct (Float.leb c a) eqn:E; [| reflexivity].
  rewrite (float_leb_trans _ _ _ E Hab) in Hbc. discriminate.
Qed.

Lemma float_lt_trans (a b c : Float.t) :
  Float.ltb a b = true -> Float.ltb b c = true -> Float.ltb a c = true.
Proof.
  intros Hab Hbc. eapply float_le_lt_trans; [| exact Hbc].
  now apply float_ltb_leb.
Qed.

(** The index returned by the scan is the first one holding the maximum:
    everything before it is strictly smaller. *)
Lemma argmax_scan_first (l : list Float.t) :
  forall best_i best i,
    let r := ops.argmax_scan best_i best i l in
    (r = best_i /\ forall x, In x l -> Float.le x best)
    \/ (i <= r < i + length l
        /\ Float.lt best (nth (r - i) l Float.NInf)
        /\ forall j, j < r - i ->
             Float.lt (nth j l Float.NInf) (nth (r - i) l Float.NInf)).
Proof.
  unfold Float.le, Float.lt.
  induction l as [| x l IH]; intros best_i best i; simpl.
  - left. split; [reflexivity | intros ? []].
  - destruct (Float.ltb best x) eqn:Hlt.
    + specialize (IH i x (S i)). simpl in IH.
      destruct IH as [[Hr Hall] | (Hr & Hb & Hall)].
      * right. rewrite Hr, Nat.sub_diag. simpl.
        split; [lia |]. split; [exact Hlt | intros j Hj; lia].
      * right.
        destruct (ops.argmax_scan i x (S i) l - i) as [| k] eqn:Hk; [lia |].
        replace (ops.argmax_scan i x (S i) l - S i) with k in * by lia.
        split; [lia |]. split; [eapply float_lt_trans; eauto |].
        intros [| j] Hj; [exact Hb | apply Hall; lia].
    + specialize (IH best_i best (S i)). simpl in IH.
      destruct IH as [[Hr Hall] | (Hr & Hb & Hall)].
      * left. split; [exact Hr |].
        intros y [<- | Hy]; [now apply float_ltb_false | auto].
      * right.
        destruct (ops.argmax_scan best_i best (S i) l - i) as [| k] eqn:Hk;
          [lia |].
        replace (ops.argmax_scan best_i best (S i) l - S i) with k in * by lia.
        split; [lia |]. split; [exact Hb |].
        intros [| j] Hj; [| apply Hall; lia].
        eapply float_le_lt_trans; [| exact Hb]. now apply float_ltb_false.
Qed.

Lemma argmax1_first (l : list Float.t) :
  forall j, j < ops.argmax1 l ->
    Float.lt (nth j l Float.NInf) (nth (ops.argmax1 l) l Float.NInf).
Proof.
  destruct l as [| a l]; simpl; [intros j Hj; lia |].
  intros j Hj.
  destruct (argmax_scan_first l 0 a 1) as [[Hr _] | (Hr & Hb & Hall)].
  - rewrite Hr in Hj. lia.
  - destruct (ops.argmax_scan 0 a 1 l) as [| k] eqn:Hk; [lia |].
    simpl in *. rewrite Nat.sub_0_r in *.
    destruct j as [| j]; [exact Hb | apply Hall; lia].
Qed.

Lemma argmax_scan_flat (c : Float.t) (n : nat) :
  forall best_i i, ops.argmax_scan best_i c i (repeat c n) = best_i.
Proof.
  induction n as [| n IH]; intros best_i i; simpl; [reflexivity |].
  unfold Float.ltb. rewrite float_leb_refl. simpl. apply IH.
Qed.

Lemma argmax1_flat (c : Float.t) (n : nat) : ops.argmax1 (repeat c n) = 0.
Proof. destruct n; simpl; [reflexivity | apply argmax_scan_flat]. Qed.

(* ---------------- lists of zeros and ones ---------------- *)

Lemma max1_bits (f : nat -> bool) (n : nat) :
  0 < n ->
  negb (Float.eqb (ops.max1 (map (fun j => bit (f j)) (seq 0 n))) Float.zero)
  = existsb f (seq 0 n).
Proof.
  destruct n as [| n]; [lia | intros _].
  set (l := map (fun j => bit (f j)) (seq 0 (S n))).
  assert (Hne : l <> []) by (unfold l; simpl; discriminate).
  destruct (max1_spec Hne) as [Hin Hmax].
  destruct (existsb f (seq 0 (S n))) eqn:E.
  - apply existsb_exists in E. destruct E as (j & Hj & Hfj).
    assert (Hone : In Float.one l).
    { unfold l. apply in_map_iff. exists j. now rewrite Hfj. }
    specialize (Hmax _ Hone).
    unfold l in Hin. apply in_map_iff in Hin. destruct Hin as (k & Hk & _).
    fold l in Hk. rewrite <- Hk in *.
    destruct (f k); [reflexivity |]. vm_compute in Hmax. discriminate.
  - unfold l in Hin. apply in_map_iff in Hin. destruct Hin as (k & Hk & Hkin).
    fold l in Hk. rewrite <- Hk.
    destruct (f k) eqn:Hfk; [| reflexivity].
    assert (existsb f (seq 0 (S n)) = true)
      by (apply existsb_exists; eauto).
    congruence.
Qed.

Lemma nth_map_seq (A : Type) (f : nat -> A) (n j : nat) (d : A) :
  j < n -> nth j (map f (seq 0 n)) d = f j.
Proof.
  intros Hj.
  rewrite (nth_indep _ d (f 0)) by (now rewrite length_map, length_seq).
  rewrite (map_nth f (seq 0 n) 0 j), seq_nth by exact Hj. reflexivity.
Qed.

Lemma argmax1_bits (f : nat -> bool) (n : nat) :
  existsb f (seq 0 n) = true ->
  let r := ops.argmax1 (map (fun j => bit (f j)) (seq 0 n)) in
  r < n /\ f r = true /\ forall j, j < r -> f j = false.
Proof.
  intros E r.
  set (l := map (fun j => bit (f j)) (seq 0 n)) in *.
  assert (Hlen : length l = n)
    by (unfold l; now rewrite length_map, length_seq).
  assert (Hne : l <> []).
  { destruct n; [discriminate E | unfold l; simpl; discriminate]. }
  destruct (argmax1_spec Hne) as [Hlt Hmax]. fold r in Hlt, Hmax.
  rewrite Hlen in Hlt.
  apply existsb_exists in E. destruct E as (j & Hj & Hfj).
  assert (Hone : In Float.one l).
  { unfold l. apply in_map_iff. exists j. now rewrite Hfj. }
  specialize (Hmax _ Hone).
  assert (Hr : nth r l Float.NInf = bit (f r))
    by (unfold l; now apply nth_map_seq).
  split; [exact Hlt |]. split.
  - rewrite Hr in Hmax. destruct (f r); [reflexivity |].
    vm_compute in Hmax. discriminate.
  - intros k Hk.
    pose proof (@argmax1_first l k Hk) as Hfirst. fold r in Hfirst.
    rewrite Hr in Hfirst.
    assert (Hkn : nth k l Float.NInf = bit (f k))
      by (unfold l; apply nth_map_seq; lia).
    rewrite Hkn in Hfirst.
    destruct (f k); [| reflexivity].
    destruct (f r); vm_compute in Hfirst; discriminate.
Qed.

(* ---------------- one matrix under forced matching ---------------- *)

Lemma threshold_loop_values (self : t) (dt : Float.dtype) (B R : nat)
      (data : list (list (list Float.t))) :
  length data = B -> Forall (fun m => length m = R) data ->
  fold_left (threshold_step dt (ops.max_last (map (map pad_row) data)))
            (zip3 (match_values self) (removelast (thresholds self))
                  (tl (thresholds self)))
            (ops.zeros2 B R)
  = map (map (row_value dt self)) data.
Proof.
  intros HB HR.
  unfold ops.max_last, ops.reduce_last.
  rewrite (@zeros2_as_map _ B R (map (map ops.max1) (map (map pad_row) data))).
  - rewrite threshold_loop_map, !map_map.
    apply map_ext. intros m. rewrite !map_map. reflexivity.
  - now rewrite !length_map.
  - rewrite map_map. apply Forall_map.
    eapply Forall_impl; [| exact HR].
    intros m Hm. simpl in *. now rewrite !length_map.
Qed.

Lemma map_nth_seq (A : Type) (d : A) (l : list A) :
  map (fun i => nth i l d) (seq 0 (length l)) = l.
Proof.
  induction l as [| a l IH]; simpl; [reflexivity |].
  f_equal. rewrite <- seq_shift, map_map. exact IH.
Qed.

Lemma zip_with3_map_same (A B C D E : Type) (f : B -> C -> D -> E)
      (g : A -> B) (h : A -> C) (k : A -> D) (l : list A) :
  ops.zip_with3 f (map g l) (map h l) (map k l)
  = map (fun x => f (g x) (h x) (k x)) l.
Proof.
  induction l as [| x l IH]; simpl; [reflexivity | now rewrite IH].
Qed.

Lemma map_via_seq (A B : Type) (f : A -> B) (d : A) (l : list A) :
  map f l = map (fun i => f (nth i l d)) (seq 0 (length l)).
Proof.
  rewrite <- (map_map (fun i => nth i l d) f), map_nth_seq. reflexivity.
Qed.

Lemma repeat_via_seq (A : Type) (x : A) (n : nat) :
  repeat x n = map (fun _ => x) (seq 0 n).
Proof.
  induction n as [| n IH]; simpl; [reflexivity |].
  f_equal. rewrite <- seq_shift, map_map. exact IH.
Qed.

Lemma forced_matrix (self : t) (dt : Float.dtype) (R C : nat)
      (m : list (list Float.t)) (p : Z) :
  length m = R -> 1 <= R -> 1 <= C ->
  force_match_for_each_col self = true ->
  last_item (match_values self) = Ok p ->
  cond_num_boxes self dt 1 R C [m]
  = Ok ([map (fun i =>
                Z.of_nat (if forced_mask R C m i then forced_column R C m i
                          else ops.argmax1 (pad_row (nth i m []))))
             (seq 0 R)],
        [map (fun i =>
                if forced_mask R C m i then (p * 1)%Z
                else row_value dt self (nth i m []))
             (seq 0 R)]).
Proof.
  intros Hm HR HC Hf Hp.
  unfold cond_num_boxes.
  replace (0 <? C) with true by (symmetry; apply Nat.ltb_lt; lia).
  unfold _match_when_cols_are_non_empty. rewrite Hf.
  rewrite (@padded_matrix 1 R [m]) by (auto; repeat constructor; exact Hm).
  rewrite (@threshold_loop_values self dt 1 R [m])
    by (auto; repeat constructor; exact Hm).
  unfold ops.argmax_axis1, ops.max_axis1.
  replace (R =? 0) with false by (symmetry; apply Nat.eqb_neq; lia).
  replace (C + 1 =? 0) with false by (symmetry; apply Nat.eqb_neq; lia).
  simpl. rewrite Hp. simpl.
  rewrite (map_via_seq ops.argmax1 [] (map pad_row m)).
  rewrite (map_via_seq (row_value dt self) [] m).
  rewrite length_map, Hm, repeat_via_seq, !map_map.
  unfold ops.where_. simpl.
  rewrite !zip_with3_map_same, !map_map.
  apply f_equal. f_equal.
  - f_equal. apply map_ext_in. intros i Hi. apply in_seq in Hi.
    unfold forced_mask, forced_column, match_mapping, best_row.
    rewrite (nth_indep (map pad_row m) [] (pad_row []))
      by (rewrite length_map; lia).
    rewrite (map_nth pad_row m [] i), !map_map. reflexivity.
  - f_equal. apply map_ext_in. intros i Hi.
    unfold forced_mask, match_mapping, best_row.
    rewrite !map_map. reflexivity.
Qed.

Lemma one_hot1_nth (R b i : nat) :
  i < R -> nth i (ops.one_hot1 R b) Float.NInf = bit (i =? b).
Proof. intros Hi. unfold ops.one_hot1. now rewrite nth_map_seq. Qed.

Lemma mapping_column (R C : nat) (m : list (list Float.t)) (i : nat) :
  i < R ->
  ops.column Float.NInf (match_mapping R C m) i
  = map (fun j => bit (i =? best_row m j)) (seq 0 (C + 1)).
Proof.
  intros Hi. unfold ops.column, match_mapping. rewrite !map_map.
  apply map_ext. intros j. now apply one_hot1_nth.
Qed.

Lemma forced_mask_spec (R C : nat) (m : list (list Float.t)) (i : nat) :
  i < R ->
  (forced_mask R C m i = true <-> exists j, j <= C /\ best_row m j = i).
Proof.
  intros Hi. unfold forced_mask.
  rewrite (mapping_column C m Hi), max1_bits by lia.
  rewrite existsb_exists. split.
  - intros (j & Hj & E). apply in_seq in Hj. apply Nat.eqb_eq in E.
    exists j. split; [lia | congruence].
  - intros (j & Hj & E). exists j. split; [apply in_seq; lia |].
    apply Nat.eqb_eq. congruence.
Qed.

Lemma forced_column_spec (R C : nat) (m : list (list Float.t)) (i : nat) :
  i < R -> forced_mask R C m i = true ->
  forced_column R C m i <= C
  /\ best_row m (forced_column R C m i) = i
  /\ forall j, j < forced_column R C m i -> best_row m j <> i.
Proof.
  intros Hi Hmask. unfold forced_mask, forced_column in *.
  rewrite (mapping_column C m Hi) in *. rewrite max1_bits in Hmask by lia.
  destruct (argmax1_bits _ _ Hmask) as (Hlt & Hr & Hfirst).
  split; [lia |]. split.
  - apply Nat.eqb_eq in Hr. congruence.
  - intros j Hj E. specialize (Hfirst j Hj).
    apply Nat.eqb_neq in Hfirst. congruence.
Qed.

Lemma padded_column_real (C : nat) (m : list (list Float.t)) (c : nat) :
  Forall (fun row => length row = C) m -> c < C ->
  ops.column Float.NInf (map pad_row m) c = ops.column Float.NInf m c.
Proof.
  intros Hrows Hc. unfold ops.column. rewrite map_map.
  apply map_ext_Forall. eapply Forall_impl; [| exact Hrows].
  intros row Hrow. simpl in Hrow. apply nth_pad_row. lia.
Qed.

Lemma padded_column_last (C : nat) (m : list (list Float.t)) :
  Forall (fun row => length row = C) m ->
  ops.column Float.NInf (map pad_row m) C
  = repeat (Float.opp Float.one) (length m).
Proof.
  intros Hrows. unfold ops.column. rewrite map_map.
  induction Hrows as [| row m Hrow _ IH]; simpl; [reflexivity |].
  rewrite IH. f_equal. rewrite <- Hrow. apply nth_pad_row_last.
Qed.

Lemma best_row_padding (C : nat) (m : list (list Float.t)) :
  Forall (fun row => length row = C) m -> best_row m C = 0.
Proof.
  intros Hrows. unfold best_row.
  rewrite (padded_column_last Hrows). apply argmax1_flat.
Qed.

Lemma column_nth (m : list (list Float.t)) (c i : nat) :
  nth i (ops.column Float.NInf m c) Float.NInf = entry m i c.
Proof.
  unfold ops.column, entry.
  set (f := fun row : list Float.t => nth c row Float.NInf).
  assert (Hd : f [] = Float.NInf) by (unfold f; destruct c; reflexivity).
  rewrite <- Hd at 1. apply map_nth.
Qed.

Lemma best_row_real (R C : nat) (m : list (list Float.t)) (c : nat) :
  matrix_shape_ok R C m = true -> 1 <= R -> c < C ->
  best_row m c < R
  /\ forall i, i < R ->
       Float.le (entry m i c) (entry m (best_row m c) c).
Proof.
  intros Hs HR Hc.
  destruct (matrix_shape_ok_spec _ _ _ Hs) as [Hlen Hrows].
  unfold best_row. rewrite (padded_column_real Hrows Hc).
  assert (Hcol : length (ops.column Float.NInf m c) = R)
    by (unfold ops.column; now rewrite length_map).
  assert (Hne : ops.column Float.NInf m c <> []).
  { intros E. rewrite E in Hcol. simpl in Hcol. lia. }
  destruct (argmax1_spec Hne) as [Hlt Hmax].
  rewrite Hcol in Hlt. split; [exact Hlt |].
  intros i Hi. rewrite <- !column_nth. apply Hmax, nth_In. lia.
Qed.

(* ---------------- from one matrix to a call ---------------- *)

Lemma threshold_loop_nil (dt : Float.dtype)
      (items : list (Z * Float.t * Float.t)) :
  fold_left (threshold_step dt []) items [] = [].
Proof.
  induction items as [| [[ind low] high] items IH]; simpl; auto.
Qed.

Lemma cond_num_boxes_lengths (self : t) (dt : Float.dtype) (R C : nat) :
  static_error self R C = None ->
  forall (data : list (list (list Float.t))) (B : nat) r,
    length data = B ->
    cond_num_boxes self dt B R C data = Ok r ->
    length (fst r) = B /\ length (snd r) = B.
Proof.
  intros Hok.
  induction data as [| m rest IH]; intros B r HB Hr; simpl in HB; subst B.
  - revert Hr. unfold cond_num_boxes, _match_when_cols_are_non_empty,
      _match_when_cols_are_empty, ops.argmax_axis1, ops.max_axis1.
    unfold static_error in Hok.
    destruct (0 <? C); [| intros H; injection H as <-; split; reflexivity].
    change (ops.zeros2 0 R) with (@nil (list Z)). simpl.
    rewrite threshold_loop_nil.
    destruct (force_match_for_each_col self);
      [| intros H; injection H as <-; split; reflexivity].
    destruct (R =? 0); [discriminate |].
    replace (C + 1 =? 0) with false by (symmetry; apply Nat.eqb_neq; lia).
    simpl.
    destruct (last_item (match_values self)); [| discriminate].
    simpl. intros H; injection H as <-; split; reflexivity.
  - rewrite (cond_num_boxes_cons self dt (length rest) R C m rest) in Hr.
    pose proof (cond_num_boxes_error self dt 1 R C [m]) as H1.
    pose proof (cond_num_boxes_error self dt (length rest) R C rest) as H2.
    rewrite Hok in H1, H2.
    destruct H1 as [r1 H1], H2 as [r2 H2].
    rewrite H1, H2 in Hr. simpl in Hr. injection Hr as <-.
    destruct (IH (length rest) r2 eq_refl H2) as [Hc Hv].
    simpl. split; congruence.
Qed.

Lemma call_per_matrix (self : t) (dt : Float.dtype) (s : similarity)
      (P : list (list Float.t) -> list Z -> list Z -> Prop) :
  static_error self (num_rows_of s) (num_cols_of s) = None ->
  match s with
  | Rank2 _ _ _ => True
  | Rank3 B _ _ data => length data = B
  end ->
  (forall m r1,
      match s with
      | Rank2 _ _ m' => m = m'
      | Rank3 _ _ _ data => In m data
      end ->
      cond_num_boxes self dt 1 (num_rows_of s) (num_cols_of s) [m] = Ok r1 ->
      P m (hd [] (fst r1)) (hd [] (snd r1))) ->
  exists o, call self dt s = Ok o /\ per_matrix P s o.
Proof.
  intros Hok Hlen HP.
  destruct s as [R C m | B R C data]; simpl in *.
  - pose proof (cond_num_boxes_error self dt 1 R C [m]) as H1.
    rewrite Hok in H1. destruct H1 as [r1 H1].
    unfold ops.expand_dims. rewrite H1. destruct r1 as [c v]. simpl.
    eexists. split; [reflexivity |]. simpl.
    apply (HP m (c, v) eq_refl H1).
  - pose proof (cond_num_boxes_error self dt B R C data) as H2.
    rewrite Hok in H2. destruct H2 as [r H2].
    rewrite H2. destruct r as [cs vs]. simpl.
    eexists. split; [reflexivity |]. simpl.
    destruct (@cond_num_boxes_lengths self dt R C Hok data B (cs, vs) Hlen H2)
      as [Hc Hv]. simpl in Hc, Hv.
    split; [congruence |]. split; [congruence |].
    intros b Hb.
    destruct (@cond_num_boxes_slice self dt R C Hok data B b Hlen)
      as (r1 & r' & H1 & H2' & Hcb & Hvb); [lia |].
    rewrite H2 in H2'. injection H2' as <-. simpl in Hcb, Hvb.
    rewrite Hcb, Hvb. apply HP; [apply nth_In; lia | exact H1].
Qed.

(* ---------------- layers built by the constructor ---------------- *)

Lemma last_item_non_empty (A : Type) (l : list A) (d : A) :
  l <> [] -> last_item l = Ok (last l d).
Proof.
  intros Hne. unfold last_item.
  rewrite (app_removelast_last d Hne) at 1.
  now rewrite rev_app_distr.
Qed.

Lemma built_last_item (sup : bool) (thr : list Float.t) (mv : list Z)
      (f : bool) (self : t) :
  __init__ sup thr mv f = Ok self ->
  last_item (match_values self) = Ok (last (match_values self) 0%Z)
  /\ In (last (match_values self) 0%Z) (match_values self).
Proof.
  intros Hinit. destruct (init_ok_inv _ _ _ _ Hinit) as (_ & Hl & ->).
  simpl.
  assert (Hne : mv <> [])
    by (destruct mv; simpl in *; [lia | discriminate]).
  split; [now apply last_item_non_empty |].
  rewrite (app_removelast_last 0%Z Hne) at 2.
  apply in_or_app. right. now left.
Qed.

Lemma built_static_error (sup : bool) (thr : list Float.t) (mv : list Z)
      (f : bool) (self : t) (R C : nat) :
  __init__ sup thr mv f = Ok self ->
  static_error self R C
  = if (0 <? C) && f && (R =? 0) then Some ValueError else None.
Proof.
  intros Hinit. destruct (built_last_item _ _ _ _ Hinit) as [Hlast _].
  destruct (init_ok_inv _ _ _ _ Hinit) as (_ & _ & Hself).
  unfold static_error. rewrite Hlast.
  rewrite Hself at 1. simpl.
  destruct (0 <? C), f, (R =? 0); reflexivity.
Qed.

(** X1. The configuration of a constructed layer holds the constructor's
    own arguments, the thresholds without the two infinities, and building
    a layer from it gives the same layer again. *)
Theorem get_config_round_trip
        (bounding_box_support : bool) (thresholds : list Float.t)
        (match_values : list Z) (force : bool) (self : t) :
  __init__ bounding_box_support thresholds match_values force = Ok self ->
  get_config self = Config thresholds match_values force
  /\ __init__ bounding_box_support
              (config_thresholds (get_config self))
              (config_match_values (get_config self))
              (config_force_match_for_each_col (get_config self))
     = Ok self.
Proof.
  intros Hinit.
  destruct (init_ok_inv _ _ _ _ Hinit) as (_ & _ & Hself).
  assert (Hcfg : get_config self = Config thresholds match_values force).
  { rewrite Hself. unfold get_config, inner_slice. simpl.
    now rewrite removelast_last. }
  split; [exact Hcfg |]. rewrite Hcfg. simpl. exact Hinit.
Qed.

Lemma get_config_round_trip_witness :
  let thr := [tenth 4; tenth 5] in
  let mv := [(-1)%Z; (-2)%Z; 1%Z] in
  let self := Build mv (Float.NInf :: thr ++ [Float.PInf]) true in
  get_config self = Config thr mv true
  /\ __init__ true (config_thresholds (get_config self))
              (config_match_values (get_config self))
              (config_force_match_for_each_col (get_config self))
     = Ok self.
Proof.
  intros thr mv self.
  apply (@get_config_round_trip true thr mv true self). reflexivity.
Defined.

Lemma init_rejects_bracketed (thr : list Float.t) (mv : list Z) (f : bool) :
  Sorted Float.le thr -> length mv = length thr + 1 ->
  __init__ true (Float.NInf :: thr ++ [Float.PInf]) mv f = Raise ValueError.
Proof.
  intros Hs Hl. unfold __init__, assert_bounding_box_support, bind.
  assert (Hsorted : list_eq (sorted (Float.NInf :: thr ++ [Float.PInf]))
                            (Float.NInf :: thr ++ [Float.PInf]) = true).
  { apply sorted_check_iff. now apply ascending_bracket. }
  rewrite Hsorted. cbn [negb].
  replace (length mv =? length (Float.NInf :: thr ++ [Float.PInf]) + 1)
    with false; [reflexivity |].
  symmetry. apply Nat.eqb_neq. simpl. rewrite length_app. simpl. lia.
Qed.

Lemma init_in_place_fst (sup : bool) (thr : list Float.t) (mv : list Z)
      (f : bool) :
  fst (__init__in_place sup thr mv f) = __init__ sup thr mv f.
Proof.
  unfold __init__in_place, __init__, assert_bounding_box_support.
  destruct sup; simpl; [| reflexivity].
  destruct (list_eq (sorted thr) thr); simpl; [| reflexivity].
  destruct (length mv =? length thr + 1); reflexivity.
Qed.

Lemma init_in_place_snd (sup : bool) (thr : list Float.t) (mv : list Z)
      (f : bool) :
  snd (__init__in_place sup thr mv f)
  = match __init__ sup thr mv f with
    | Ok self => thresholds self
    | Raise _ => thr
    end.
Proof.
  unfold __init__in_place, __init__, assert_bounding_box_support.
  destruct sup; simpl; [| reflexivity].
  destruct (list_eq (sorted thr) thr); simpl; [| reflexivity].
  destruct (length mv =? length thr + 1); reflexivity.
Qed.

(** X2. [__init__] works on the caller's list: when it raises the list is
    as it was; when it returns the list has [-inf] in front and [+inf]
    behind and is the layer's own threshold list, so that a second layer
    cannot be built from the same list and the same [match_values]: the
    length check raises [ValueError]. *)
Theorem init_mutates_thresholds
        (bounding_box_support : bool) (thresholds : list Float.t)
        (match_values : list Z) (force : bool) :
  let r := __init__in_place bounding_box_support thresholds match_values
                            force in
  fst r = __init__ bounding_box_support thresholds match_values force
  /\ (forall e, fst r = Raise e -> snd r = thresholds)
  /\ (forall self, fst r = Ok self ->
        snd r = Float.NInf :: thresholds ++ [Float.PInf]
        /\ snd r = BoxMatcher.thresholds self
        /\ forall force',
             __init__ bounding_box_support (snd r) match_values force'
             = Raise ValueError).
Proof.
  intros r. unfold r. rewrite init_in_place_fst, init_in_place_snd.
  split; [reflexivity |]. split.
  - intros e He. now rewrite He.
  - intros self Hself. rewrite Hself.
    destruct (init_ok_inv _ _ _ _ Hself) as (Hsorted & Hl & Heq).
    assert (Hsup : bounding_box_support = true).
    { destruct bounding_box_support; [reflexivity | discriminate Hself]. }
    subst self bounding_box_support. simpl.
    split; [reflexivity |]. split; [reflexivity |].
    intros force'. now apply init_rejects_bracketed.
Qed.

(** X3. On a tensor that is not empty along the batch and row axes
    [call] returns a result, for every layer the constructor accepts
    with match values within int32, with or without forced matching and
    whatever the number of columns: no reduction is over an empty axis
    and [match_values[-1]] exists.  (On tensors with no row or no batch
    element the backends differ.) *)
Theorem call_returns_on_rows
        (bounding_box_support : bool) (thresholds : list Float.t)
        (match_values : list Z) (force : bool) (self : t)
        (dt : Float.dtype) (s : similarity) :
  __init__ bounding_box_support thresholds match_values force = Ok self ->
  int32_values self = true ->
  1 <= batch_size_of s ->
  1 <= num_rows_of s ->
  exists o, call self dt s = Ok o.
Proof.
  intros Hinit _ _ HR.
  pose proof (@built_static_error _ _ _ _ _ (num_rows_of s) (num_cols_of s)
                                  Hinit) as Herr.
  replace (num_rows_of s =? 0) with false in Herr
    by (symmetry; apply Nat.eqb_neq; lia).
  rewrite andb_false_r in Herr.
  destruct s as [R C m | B R C data]; simpl in *.
  - pose proof (cond_num_boxes_error self dt 1 R C (ops.expand_dims m)) as H.
    rewrite Herr in H. destruct H as [[c v] H]. rewrite H. simpl. eauto.
  - pose proof (cond_num_boxes_error self dt B R C data) as H.
    rewrite Herr in H. destruct H as [[c v] H]. rewrite H. simpl. eauto.
Qed.

Lemma call_returns_on_rows_witness :
  let self := Build [0%Z; 1%Z] [Float.NInf; tenth 5; Float.PInf] true in
  let s := Rank3 2 1 0 [[[]]; [[]]] in
  exists o, call self Float.float32 s = Ok o.
Proof.
  intros self s.
  apply (@call_returns_on_rows true [tenth 5] [0%Z; 1%Z] true self
           Float.float32 s);
    [reflexivity | reflexivity | simpl; lia | simpl; lia].
Defined.

(* ---------------- the shape of the results ---------------- *)

Lemma matrix_result_lengths (self : t) (dt : Float.dtype) (R C : nat)
      (m : list (list Float.t)) r1 :
  length m = R ->
  cond_num_boxes self dt 1 R C [m] = Ok r1 ->
  length (hd [] (fst r1)) = R /\ length (hd [] (snd r1)) = R.
Proof.
  intros Hm Hr.
  pose proof (cond_num_boxes_error self dt 1 R C [m]) as Herr.
  destruct (static_error self R C) as [e |] eqn:Hstat; [congruence |].
  clear Herr. unfold static_error in Hstat.
  destruct (Nat.ltb_spec 0 C) as [HC | HC].
  - destruct (force_match_for_each_col self) eqn:Hf.
    + destruct (Nat.eqb_spec R 0) as [HR | HR]; [discriminate |].
      destruct (last_item (match_values self)) as [p |] eqn:Hp;
        [| discriminate].
      rewrite (@forced_matrix self dt R C m p) in Hr by (auto; lia).
      injection Hr as <-. simpl. now rewrite !length_map, length_seq.
    + unfold cond_num_boxes in Hr.
      replace (0 <? C) with true in Hr by (symmetry; apply Nat.ltb_lt; lia).
      rewrite (@non_empty_without_force self dt 1 R C [m]) in Hr
        by (auto; repeat constructor; exact Hm).
      injection Hr as <-. simpl. now rewrite !length_map.
  - unfold cond_num_boxes in Hr.
    replace (0 <? C) with false in Hr by (symmetry; apply Nat.ltb_ge; lia).
    unfold _match_when_cols_are_empty in Hr. injection Hr as <-.
    simpl. now rewrite length_map, !repeat_length.
Qed.

Lemma shape_ok_matrices (s : similarity) :
  shape_ok s = true ->
  match s with
  | Rank2 _ _ _ => True
  | Rank3 B _ _ data => length data = B
  end
  /\ forall m,
       match s with
       | Rank2 _ _ m' => m = m'
       | Rank3 _ _ _ data => In m data
       end ->
       matrix_shape_ok (num_rows_of s) (num_cols_of s) m = true.
Proof.
  destruct s as [R C m | B R C data]; simpl; intros Hs.
  - split; [exact I | now intros m' ->].
  - apply andb_prop in Hs. destruct Hs as [HB Hms].
    apply Nat.eqb_eq in HB. rewrite forallb_forall in Hms. auto.
Qed.

Lemma call_ok_static (self : t) (dt : Float.dtype) (s : similarity)
      (o : matches) :
  call self dt s = Ok o ->
  static_error self (num_rows_of s) (num_cols_of s) = None.
Proof.
  intros Hcall.
  destruct (static_error self (num_rows_of s) (num_cols_of s)) as [e |] eqn:E;
    [| reflexivity].
  exfalso. destruct s as [R C m | B R C data]; simpl in *.
  - pose proof (cond_num_boxes_error self dt 1 R C (ops.expand_dims m)) as H.
    rewrite E in H. rewrite H in Hcall. discriminate.
  - pose proof (cond_num_boxes_error self dt B R C data) as H.
    rewrite E in H. rewrite H in Hcall. discriminate.
Qed.

(** X4. Whenever [call] returns, for any layer and any well-shaped input,
    [matched_columns] and [matched_values] have one entry per row: shape
    [[num_rows]] for a rank-2 input and [[batch_size, num_rows]] for a
    rank-3 input. *)
Theorem call_result_shape (self : t) (dt : Float.dtype) (s : similarity)
        (o : matches) :
  shape_ok s = true ->
  call self dt s = Ok o ->
  per_matrix (fun _ cols vals =>
                length cols = num_rows_of s /\ length vals = num_rows_of s)
             s o.
Proof.
  intros Hs Hcall.
  destruct (shape_ok_matrices s Hs) as [Hlen Hms].
  destruct (@call_per_matrix self dt s
              (fun _ cols vals =>
                 length cols = num_rows_of s /\ length vals = num_rows_of s)
              (call_ok_static _ _ _ Hcall) Hlen) as (o' & Ho' & HP).
  - intros m r1 Hm Hr.
    destruct (matrix_shape_ok_spec _ _ _ (Hms m Hm)) as [HR _].
    now apply matrix_result_lengths with (self := self) (dt := dt)
                                         (C := num_cols_of s) (m := m).
  - congruence.
Qed.

Lemma call_result_shape_witness :
  let self := Build [0%Z; 1%Z] [Float.NInf; tenth 5; Float.PInf] true in
  let s := Rank3 2 2 2 [[[tenth 9; tenth 8]; [tenth 1; tenth 2]];
                        [[tenth 1; tenth 1]; [tenth 3; tenth 2]]] in
  per_matrix (fun _ cols vals => length cols = 2 /\ length vals = 2) s
             (Matches2 [[0%Z; 1%Z]; [2%Z; 0%Z]] [[1%Z; 0%Z]; [1%Z; 1%Z]]).
Proof.
  intros self s.
  apply (@call_result_shape self Float.float32 s); reflexivity.
Defined.

(* ---------------- forced matching ---------------- *)

Section Forced.

Variables (bounding_box_support : bool) (thresholds : list Float.t)
          (match_values : list Z) (self : t) (dt : Float.dtype).
Hypothesis Hinit :
  __init__ bounding_box_support thresholds match_values true = Ok self.

Lemma forced_matrix_built (R C : nat) (m : list (list Float.t)) r1 :
  length m = R -> 1 <= R -> 1 <= C ->
  cond_num_boxes self dt 1 R C [m] = Ok r1 ->
  hd [] (fst r1)
  = map (fun i =>
           Z.of_nat (if forced_mask R C m i then forced_column R C m i
                     else ops.argmax1 (pad_row (nth i m []))))
        (seq 0 R)
  /\ hd [] (snd r1)
     = map (fun i =>
              if forced_mask R C m i
              then last (BoxMatcher.match_values self) 0%Z
              else row_value dt self (nth i m []))
           (seq 0 R).
Proof.
  intros Hm HR HC Hr.
  destruct (built_last_item _ _ _ _ Hinit) as [Hlast _].
  destruct (init_ok_inv _ _ _ _ Hinit) as (_ & _ & Hself).
  assert (Hf : force_match_for_each_col self = true) by now rewrite Hself.
  rewrite (@forced_matrix self dt R C m _ Hm HR HC Hf Hlast) in Hr.
  injection Hr as <-. simpl. split; [reflexivity |].
  apply map_ext. intros i. now rewrite Z.mul_1_r.
Qed.

Lemma forced_static_ok (s : similarity) :
  1 <= num_rows_of s ->
  static_error self (num_rows_of s) (num_cols_of s) = None.
Proof.
  intros HR.
  rewrite (@built_static_error _ _ _ _ _ (num_rows_of s) (num_cols_of s)
                               Hinit).
  replace (num_rows_of s =? 0) with false
    by (symmetry; apply Nat.eqb_neq; lia).
  now rewrite andb_false_r.
Qed.

(** X5. With [force_match_for_each_col=True] and match values within
    int32, the column of [-1] added to the matrix is matched like a real
    one, and its best row is row 0: row 0 of every matrix is given the
    positive value whatever its entries, and when row 0 is the best row
    of no real column its matched column is [num_cols], an index outside
    the matrix. *)
Theorem forced_match_always_marks_row_zero (s : similarity) :
  int32_values self = true ->
  shape_ok s = true ->
  1 <= num_rows_of s ->
  1 <= num_cols_of s ->
  exists o,
    call self dt s = Ok o /\
    per_matrix
      (fun m cols vals =>
         nth 0 vals 0%Z = last (BoxMatcher.match_values self) 0%Z
         /\ ((forall c, c < num_cols_of s -> best_row m c <> 0) ->
             nth 0 cols 0%Z = Z.of_nat (num_cols_of s)))
      s o.
Proof.
  intros _ Hs HR HC.
  destruct (shape_ok_matrices s Hs) as [Hlen Hms].
  apply call_per_matrix; [now apply forced_static_ok | exact Hlen |].
  intros m r1 Hm Hr.
  destruct (matrix_shape_ok_spec _ _ _ (Hms m Hm)) as [HmR Hrows].
  destruct (@forced_matrix_built _ _ m r1 HmR HR HC Hr) as [-> ->].
  set (R := num_rows_of s) in *. set (C := num_cols_of s) in *.
  assert (Hmask : forced_mask R C m 0 = true).
  { apply forced_mask_spec; [lia |].
    exists C. split; [lia | now apply best_row_padding]. }
  rewrite !nth_map_seq by lia. rewrite Hmask.
  split; [reflexivity |].
  intros Hnone. f_equal.
  destruct (@forced_column_spec R C m 0) as (Hle & Hbest & _); [lia | auto |].
  destruct (Nat.eq_dec (forced_column R C m 0) C) as [E | E]; [exact E |].
  exfalso. apply (Hnone (forced_column R C m 0)); [lia | exact Hbest].
Qed.

(** X6. What [force_match_for_each_col=True] does guarantee, for match
    values within int32: for every column [c] the row holding the (first)
    largest entry of that column is given the positive value, and it is
    matched to a column of index at most [c] of which it is the best row
    as well. *)
Theorem forced_match_marks_best_rows (s : similarity) :
  int32_values self = true ->
  shape_ok s = true ->
  1 <= num_rows_of s ->
  1 <= num_cols_of s ->
  exists o,
    call self dt s = Ok o /\
    per_matrix
      (fun m cols vals =>
         forall c, c < num_cols_of s ->
           let r := best_row m c in
           r < num_rows_of s
           /\ (forall i, i < num_rows_of s ->
                 Float.le (entry m i c) (entry m r c))
           /\ nth r vals 0%Z = last (BoxMatcher.match_values self) 0%Z
           /\ exists j, j <= c /\ best_row m j = r
                        /\ nth r cols 0%Z = Z.of_nat j)
      s o.
Proof.
  intros _ Hs HR HC.
  destruct (shape_ok_matrices s Hs) as [Hlen Hms].
  apply call_per_matrix; [now apply forced_static_ok | exact Hlen |].
  intros m r1 Hm Hr c Hc r.
  destruct (matrix_shape_ok_spec _ _ _ (Hms m Hm)) as [HmR Hrows].
  destruct (@forced_matrix_built _ _ m r1 HmR HR HC Hr) as [-> ->].
  destruct (@best_row_real _ _ m c (Hms m Hm) HR Hc) as [Hr_lt Hr_max].
  fold r in Hr_lt, Hr_max.
  set (R := num_rows_of s) in *. set (C := num_cols_of s) in *.
  assert (Hmask : forced_mask R C m r = true).
  { apply forced_mask_spec; [exact Hr_lt |].
    exists c. split; [lia | reflexivity]. }
  destruct (@forced_column_spec R C m r Hr_lt Hmask) as (Hle & Hbest & Hfirst).
  rewrite !nth_map_seq by exact Hr_lt. rewrite Hmask.
  split; [exact Hr_lt |]. split; [exact Hr_max |]. split; [reflexivity |].
  exists (forced_column R C m r). split; [| split; [exact Hbest | reflexivity]].
  destruct (Nat.le_gt_cases (forced_column R C m r) c) as [H | H]; [exact H |].
  exfalso. now apply (Hfirst c H).
Qed.


End Forced.

Lemma forced_match_always_marks_row_zero_witness :
  let self := Build [0%Z; 1%Z] [Float.NInf; tenth 5; Float.PInf] true in
  let s := Rank2 2 1 [[tenth 1]; [tenth 9]] in
  exists o,
    call self Float.float32 s = Ok o /\
    per_matrix
      (fun m cols vals =>
         nth 0 vals 0%Z = 1%Z
         /\ ((forall c, c < 1 -> best_row m c <> 0) ->
             nth 0 cols 0%Z = 1%Z))
      s o.
Proof.
  intros self s.
  apply (@forced_match_always_marks_row_zero true [tenth 5] [0%Z; 1%Z] self
           Float.float32 eq_refl s);
    [reflexivity | reflexivity | simpl; lia | simpl; lia].
Defined.

Lemma forced_match_marks_best_rows_witness :
  let self := Build [0%Z; 1%Z] [Float.NInf; tenth 5; Float.PInf] true in
  let s := Rank2 2 2 [[tenth 9; tenth 8]; [tenth 1; tenth 2]] in
  exists o,
    call self Float.float32 s = Ok o /\
    per_matrix
      (fun m cols vals =>
         forall c, c < 2 ->
           let r := best_row m c in
           r < 2
           /\ (forall i, i < 2 -> Float.le (entry m i c) (entry m r c))
           /\ nth r vals 0%Z = 1%Z
           /\ exists j, j <= c /\ best_row m j = r
                        /\ nth r cols 0%Z = Z.of_nat j)
      s o.
Proof.
  intros self s.
  apply (@forced_match_marks_best_rows true [tenth 5] [0%Z; 1%Z] self
           Float.float32 eq_refl s);
    [reflexivity | reflexivity | simpl; lia | simpl; lia].
Defined.


(* ---------------- the values a call can return ---------------- *)





(* ---------------- ties ---------------- *)

Lemma row_column_first (row : list Float.t) :
  row <> [] -> forallb in_unit row = true ->
  first_row_max row (row_column row).
Proof.
  intros Hne Hu. pose proof (row_column_ok Hne Hu) as Hok.
  split; [exact Hok |].
  destruct Hok as (_ & Hlt & _).
  unfold row_column in *. rewrite Nat2Z.id in *.
  intros j Hj.
  pose proof (@argmax1_first (pad_row row) j Hj) as Hfirst.
  now rewrite !nth_pad_row in Hfirst by lia.
Qed.

(** X9. Without forced matching a row whose largest entry occurs in
    several columns is matched to the first of them: every entry before
    the matched column is strictly smaller than the matched entry. *)
Theorem ties_go_to_first_column (self : t) (dt : Float.dtype)
        (s : similarity) :
  shape_ok s = true ->
  1 <= num_cols_of s ->
  unit_entries s = true ->
  force_match_for_each_col self = false ->
  exists o,
    call self dt s = Ok o /\ rowwise first_row_max any_value s o.
Proof.
  intros Hs HC Hu Hf.
  assert (Hrow : forall R C m,
             matrix_shape_ok R C m = true -> 1 <= C ->
             forallb (forallb in_unit) m = true ->
             Forall2 first_row_max m (map row_column m)).
  { intros R C m Hm HC' Hmu.
    destruct (matrix_shape_ok_spec _ _ _ Hm) as [_ Hrows].
    apply Forall2_map_same, Forall_forall. intros row Hin.
    rewrite Forall_forall in Hrows. specialize (Hrows row Hin).
    rewrite forallb_forall in Hmu.
    apply row_column_first; [| now apply Hmu].
    intros E. rewrite E in Hrows. simpl in Hrows. lia. }
  destruct s as [R C m | B R C data]; simpl in *.
  - destruct (matrix_shape_ok_spec _ _ _ Hs) as [HR _].
    unfold cond_num_boxes, ops.expand_dims.
    replace (0 <? C) with true by (symmetry; apply Nat.ltb_lt; lia).
    rewrite (@non_empty_without_force self dt 1 R C [m]); auto.
    simpl. eexists. split; [reflexivity |]. simpl.
    split; [now apply Hrow with (R := R) (C := C) | apply Forall2_any].
  - apply andb_prop in Hs. destruct Hs as [HB Hms].
    apply Nat.eqb_eq in HB. rewrite forallb_forall in Hms.
    unfold cond_num_boxes.
    replace (0 <? C) with true by (symmetry; apply Nat.ltb_lt; lia).
    rewrite (@non_empty_without_force self dt B R C data); auto.
    + simpl. eexists. split; [reflexivity |]. simpl.
      rewrite forallb_forall in Hu.
      split; apply Forall2_map_same, Forall_forall; intros m Hm.
      * apply Hrow with (R := R) (C := C); auto.
      * apply Forall2_any.
    + apply Forall_forall. intros m Hm.
      now destruct (matrix_shape_ok_spec _ _ _ (Hms m Hm)).
Qed.

Lemma ties_go_to_first_column_witness :
  let self := Build [0%Z; 1%Z] [Float.NInf; tenth 5; Float.PInf] false in
  let s := Rank2 1 3 [[tenth 2; tenth 7; tenth 7]] in
  exists o,
    call self Float.float32 s = Ok o /\ rowwise first_row_max any_value s o.
Proof.
  intros self s.
  apply (@ties_go_to_first_column self Float.float32 s);
    [reflexivity | simpl; lia | reflexivity | reflexivity].
Defined.

(* ---------------- the usual configurations ---------------- *)

Lemma unforced_rowwise (self : t) (dt : Float.dtype) (s : similarity)
      (P Q : list Float.t -> Z -> Prop) :
  shape_ok s = true ->
  1 <= num_cols_of s ->
  unit_entries s = true ->
  force_match_for_each_col self = false ->
  (forall row, row <> [] -> forallb in_unit row = true ->
               P row (row_column row) /\ Q row (row_value dt self row)) ->
  exists o, call self dt s = Ok o /\ rowwise P Q s o.
Proof.
  intros Hs HC Hu Hf HPQ.
  assert (Hrow : forall R C m,
             matrix_shape_ok R C m = true -> 1 <= C ->
             forallb (forallb in_unit) m = true ->
             Forall2 P m (map row_column m)
             /\ Forall2 Q m (map (row_value dt self) m)).
  { intros R C m Hm HC' Hmu.
    destruct (matrix_shape_ok_spec _ _ _ Hm) as [_ Hrows].
    rewrite Forall_forall in Hrows. rewrite forallb_forall in Hmu.
    split; apply Forall2_map_same, Forall_forall; intros row Hin;
      apply HPQ; try (now apply Hmu);
      intros E; specialize (Hrows row Hin); rewrite E in Hrows;
      simpl in Hrows; lia. }
  destruct s as [R C m | B R C data]; simpl in *.
  - destruct (matrix_shape_ok_spec _ _ _ Hs) as [HR _].
    unfold cond_num_boxes, ops.expand_dims.
    replace (0 <? C) with true by (symmetry; apply Nat.ltb_lt; lia).
    rewrite (@non_empty_without_force self dt 1 R C [m]); auto.
    simpl. eexists. split; [reflexivity |]. simpl.
    now apply Hrow with (R := R) (C := C).
  - apply andb_prop in Hs. destruct Hs as [HB Hms].
    apply Nat.eqb_eq in HB. rewrite forallb_forall in Hms.
    unfold cond_num_boxes.
    replace (0 <? C) with true by (symmetry; apply Nat.ltb_lt; lia).
    rewrite (@non_empty_without_force self dt B R C data); auto.
    + simpl. eexists. split; [reflexivity |]. simpl.
      rewrite forallb_forall in Hu.
      split; apply Forall2_map_same, Forall_forall; intros m Hm;
        apply Hrow with (R := R) (C := C); auto.
    + apply Forall_forall. intros m Hm.
      now destruct (matrix_shape_ok_spec _ _ _ (Hms m Hm)).
Qed.

(** X10. The configuration of the class documentation, cases 1 and 2:
    with [thresholds=[low, high]] and [match_values=[a, b, c]] within
    int32 (and no forced matching) a row is given [c] when its largest
    entry is at least [high], [a] when it is below [low], and [b] when it
    is in [[low, high)], where [low] and [high] are taken as the code
    compares with them: cast to the dtype of the matrix. *)
Theorem two_thresholds_three_values
        (bounding_box_support : bool) (low high : Float.t) (a b c : Z)
        (self : t) (dt : Float.dtype) (s : similarity) :
  __init__ bounding_box_support [low; high] [a; b; c] false = Ok self ->
  int32_values self = true ->
  shape_ok s = true ->
  1 <= num_cols_of s ->
  unit_entries s = true ->
  exists o,
    call self dt s = Ok o /\
    rowwise any_value
            (fun row y =>
               forall m, row_max row m ->
                 (Float.lt m (Float.cast dt low) -> y = a)
                 /\ (Float.le (Float.cast dt low) m ->
                     Float.lt m (Float.cast dt high) -> y = b)
                 /\ (Float.le (Float.cast dt high) m -> y = c))
            s o.
Proof.
  intros Hinit _ Hs HC Hu.
  destruct (init_ok_inv _ _ _ _ Hinit) as (Hsorted & Hl & Hself).
  subst self.
  apply unforced_rowwise; auto.
  intros row Hne Hrow. split; [exact I |].
  intros m Hm.
  destruct (@row_value_classified dt _ _ false row Hsorted Hl Hne Hrow)
    as [_ Hcl].
  destruct (Hcl m Hm) as (k & _ & _ & Hy & Huniq).
  simpl in Huniq.
  assert (Hfin : Float.lt m Float.PInf).
  { apply unit_below_infinity. rewrite forallb_forall in Hrow.
    apply Hrow, Hm. }
  assert (H0 : Float.le Float.NInf m) by reflexivity.
  split; [| split].
  - intros Hlt. rewrite Hy, <- (Huniq 0); [reflexivity |].
    unfold in_interval. simpl. split; [lia | auto].
  - intros Hge Hlt. rewrite Hy, <- (Huniq 1); [reflexivity |].
    unfold in_interval. simpl. split; [lia | auto].
  - intros Hge. rewrite Hy, <- (Huniq 2); [reflexivity |].
    unfold in_interval. simpl. split; [lia | auto].
Qed.

Lemma two_thresholds_three_values_witness :
  let self := Build [(-1)%Z; (-2)%Z; 1%Z]
                    [Float.NInf; tenth 4; tenth 5; Float.PInf] false in
  let s := Rank2 2 2 [[tenth 9; tenth 8]; [tenth 1; tenth 2]] in
  let dt := Float.float32 in
  exists o,
    call self dt s = Ok o /\
    rowwise any_value
            (fun row y =>
               forall m, row_max row m ->
                 (Float.lt m (Float.cast dt (tenth 4)) -> y = (-1)%Z)
                 /\ (Float.le (Float.cast dt (tenth 4)) m ->
                     Float.lt m (Float.cast dt (tenth 5)) -> y = (-2)%Z)
                 /\ (Float.le (Float.cast dt (tenth 5)) m -> y = 1%Z))
            s o.
Proof.
  intros self s dt.
  apply (@two_thresholds_three_values true (tenth 4) (tenth 5)
           (-1)%Z (-2)%Z 1%Z self dt s);
    [reflexivity | reflexivity | reflexivity | simpl; lia | reflexivity].
Defined.

(** X11. The configuration of the class documentation, case 3: with one
    threshold and [match_values=[negative, positive]] within int32 (and
    no forced matching) a row is given [positive] when its largest entry
    is at least the threshold and [negative] when it is below, the
    threshold being taken as the code compares with it: cast to the dtype
    of the matrix. *)
Theorem one_threshold_two_values
        (bounding_box_support : bool) (threshold : Float.t)
        (negative positive : Z) (self : t) (dt : Float.dtype)
        (s : similarity) :
  __init__ bounding_box_support [threshold] [negative; positive] false
  = Ok self ->
  int32_values self = true ->
  shape_ok s = true ->
  1 <= num_cols_of s ->
  unit_entries s = true ->
  exists o,
    call self dt s = Ok o /\
    rowwise any_value
            (fun row y =>
               forall m, row_max row m ->
                 (Float.lt m (Float.cast dt threshold) -> y = negative)
                 /\ (Float.le (Float.cast dt threshold) m -> y = positive))
            s o.
Proof.
  intros Hinit _ Hs HC Hu.
  destruct (init_ok_inv _ _ _ _ Hinit) as (Hsorted & Hl & Hself).
  subst self.
  apply unforced_rowwise; auto.
  intros row Hne Hrow. split; [exact I |].
  intros m Hm.
  destruct (@row_value_classified dt _ _ false row Hsorted Hl Hne Hrow)
    as [_ Hcl].
  destruct (Hcl m Hm) as (k & _ & _ & Hy & Huniq).
  simpl in Huniq.
  assert (Hfin : Float.lt m Float.PInf).
  { apply unit_below_infinity. rewrite forallb_forall in Hrow.
    apply Hrow, Hm. }
  assert (H0 : Float.le Float.NInf m) by reflexivity.
  split.
  - intros Hlt. rewrite Hy, <- (Huniq 0); [reflexivity |].
    unfold in_interval. simpl. split; [lia | auto].
  - intros Hge. rewrite Hy, <- (Huniq 1); [reflexivity |].
    unfold in_interval. simpl. split; [lia | auto].
Qed.

Lemma one_threshold_two_values_witness :
  let self := Build [0%Z; 1%Z] [Float.NInf; tenth 7; Float.PInf] false in
  let s := Rank2 2 2 [[Float.Fin (11744051 # 16777216); tenth 2];
                      [tenth 1; tenth 2]] in
  let dt := Float.float32 in
  exists o,
    call self dt s = Ok o /\
    rowwise any_value
            (fun row y =>
               forall m, row_max row m ->
                 (Float.lt m (Float.cast dt (tenth 7)) -> y = 0%Z)
                 /\ (Float.le (Float.cast dt (tenth 7)) m -> y = 1%Z))
            s o.
Proof.
  intros self s dt.
  apply (@one_threshold_two_values true (tenth 7) 0%Z 1%Z self dt s);
    [reflexivity | reflexivity | reflexivity | simpl; lia | reflexivity].
Defined.

(** The threshold of the comparison is the cast one: in a float32 matrix
    an entry equal to [float32(0.7)], which is below [0.7], reaches the
    threshold [0.7] and the row is given the positive value; in a float64
    matrix the same entry is below the threshold. *)
Example float32_threshold_boundary :
  let self := Build [0%Z; 1%Z] [Float.NInf; tenth 7; Float.PInf] false in
  let s := Rank2 1 1 [[Float.Fin (11744051 # 16777216)]] in
  Float.lt (Float.Fin (11744051 # 16777216)) (tenth 7)
  /\ call self Float.float32 s = Ok (Matches1 [0%Z] [1%Z])
  /\ call self Float.float64 s = Ok (Matches1 [0%Z] [0%Z]).
Proof. repeat split; vm_compute; reflexivity. Qed.

(* ---------------- entries outside [0, 1] ---------------- *)

Lemma row_column_range (row : list Float.t) :
  row <> [] ->
  ((exists x, In x row /\ Float.le (Float.opp Float.one) x) ->
   attains_row_max row (row_column row))
  /\ ((forall x, In x row -> Float.lt x (Float.opp Float.one)) ->
      row_column row = Z.of_nat (length row)).
Proof.
  intros Hne. unfold attains_row_max, row_column.
  destruct (argmax1_spec (pad_row_not_nil row)) as [Hlt Hmax].
  rewrite length_pad_row in Hlt.
  pose proof (@argmax1_first (pad_row row)) as Hfirst.
  set (c := ops.argmax1 (pad_row row)) in *.
  split.
  - intros (x & Hx & Hge). rewrite Nat2Z.id.
    assert (Hc : c < length row).
    { destruct (Nat.eq_dec c (length row)) as [E | E]; [| lia]. exfalso.
      destruct (In_nth _ _ Float.NInf Hx) as (j & Hj & Hnth).
      specialize (Hfirst j ltac:(lia)).
      rewrite E, nth_pad_row_last, nth_pad_row, Hnth in Hfirst by exact Hj.
      eapply float_lt_le_absurd; eauto. }
    split; [lia |]. split; [exact Hc |].
    intros y Hy. specialize (Hmax y (in_pad_row _ _ Hy)).
    now rewrite nth_pad_row in Hmax.
  - intros Hall. f_equal.
    destruct (Nat.eq_dec c (length row)) as [E | E]; [exact E |]. exfalso.
    assert (Hc : c < length row) by lia.
    assert (Hpad : In (Float.opp Float.one) (pad_row row)).
    { unfold pad_row. apply in_or_app. right. now left. }
    specialize (Hmax _ Hpad). rewrite nth_pad_row in Hmax by exact Hc.
    eapply float_lt_le_absurd; [| exact Hmax].
    apply Hall, nth_In, Hc.
Qed.

Lemma unforced_rowwise_any (self : t) (dt : Float.dtype) (s : similarity)
      (P Q : list Float.t -> Z -> Prop) :
  shape_ok s = true ->
  1 <= num_cols_of s ->
  force_match_for_each_col self = false ->
  (forall row, length row = num_cols_of s ->
               P row (row_column row) /\ Q row (row_value dt self row)) ->
  exists o, call self dt s = Ok o /\ rowwise P Q s o.
Proof.
  intros Hs HC Hf HPQ.
  assert (Hrow : forall m,
             matrix_shape_ok (num_rows_of s) (num_cols_of s) m = true ->
             Forall2 P m (map row_column m)
             /\ Forall2 Q m (map (row_value dt self) m)).
  { intros m Hm.
    destruct (matrix_shape_ok_spec _ _ _ Hm) as [_ Hrows].
    rewrite Forall_forall in Hrows.
    split; apply Forall2_map_same, Forall_forall; intros row Hin;
      now apply HPQ, Hrows. }
  destruct (shape_ok_matrices s Hs) as [Hlen Hms].
  destruct s as [R C m | B R C data]; simpl in *.
  - destruct (matrix_shape_ok_spec _ _ _ Hs) as [HR _].
    unfold cond_num_boxes, ops.expand_dims.
    replace (0 <? C) with true by (symmetry; apply Nat.ltb_lt; lia).
    rewrite (@non_empty_without_force self dt 1 R C [m]); auto.
    simpl. eexists. split; [reflexivity |]. simpl. now apply Hrow.
  - unfold cond_num_boxes.
    replace (0 <? C) with true by (symmetry; apply Nat.ltb_lt; lia).
    rewrite (@non_empty_without_force self dt B R C data); auto.
    + simpl. eexists. split; [reflexivity |]. simpl.
      split; apply Forall2_map_same, Forall_forall; intros m Hm;
        now apply Hrow, Hms.
    + apply Forall_forall. intros m Hm.
      now destruct (matrix_shape_ok_spec _ _ _ (Hms m Hm)).
Qed.

(** X14. Without forced matching, on a matrix without NaN (the only
    matrices the model has), the added column of [-1] is chosen for a row
    exactly when every entry of the row is below [-1]: a row with an
    entry of at least [-1] is matched to a real column holding its largest
    entry, so the matching is also sound for a similarity with values in
    [[-1, 1]]; a row entirely below [-1] is matched to index [num_cols],
    outside the matrix. *)
Theorem padding_column_chosen_below_minus_one
        (self : t) (dt : Float.dtype) (s : similarity) :
  shape_ok s = true ->
  1 <= num_cols_of s ->
  force_match_for_each_col self = false ->
  exists o,
    call self dt s = Ok o /\
    rowwise
      (fun row c =>
         ((exists x, In x row /\ Float.le (Float.opp Float.one) x) ->
          attains_row_max row c /\ (c < Z.of_nat (num_cols_of s))%Z)
         /\ ((forall x, In x row -> Float.lt x (Float.opp Float.one)) ->
             c = Z.of_nat (num_cols_of s)))
      any_value s o.
Proof.
  intros Hs HC Hf.
  apply unforced_rowwise_any; auto.
  intros row Hlen. split; [| exact I].
  assert (Hne : row <> []).
  { intros E. rewrite E in Hlen. simpl in Hlen. lia. }
  destruct (row_column_range Hne) as [Hreal Hpad].
  split.
  - intros Hx. pose proof (Hreal Hx) as Hok. split; [exact Hok |].
    destruct Hok as (H0 & Hlt & _). lia.
  - intros Hall. rewrite <- Hlen. now apply Hpad.
Qed.

Lemma padding_column_chosen_below_minus_one_witness :
  let self := Build [0%Z; 1%Z] [Float.NInf; tenth 5; Float.PInf] false in
  let s := Rank2 2 2 [[tenth (-20); tenth (-30)]; [tenth (-10); tenth (-5)]] in
  exists o,
    call self Float.float32 s = Ok o /\
    rowwise
      (fun row c =>
         ((exists x, In x row /\ Float.le (Float.opp Float.one) x) ->
          attains_row_max row c /\ (c < 2)%Z)
         /\ ((forall x, In x row -> Float.lt x (Float.opp Float.one)) ->
             c = 2%Z))
      any_value s o.
Proof.
  intros self s.
  apply (@padding_column_chosen_below_minus_one self Float.float32 s);
    [reflexivity | simpl; lia | reflexivity].
Defined.

(* ---------------- the range of the matched columns ---------------- *)

Lemma padded_argmax_range (C : nat) (row : list Float.t) :
  length row = C -> ops.argmax1 (pad_row row) <= C.
Proof.
  intros Hlen.
  destruct (argmax1_spec (pad_row_not_nil row)) as [Hlt _].
  rewrite length_pad_row in Hlt. lia.
Qed.

Lemma matrix_columns_range (self : t) (dt : Float.dtype) (R C : nat)
      (m : list (list Float.t)) r1 :
  matrix_shape_ok R C m = true ->
  cond_num_boxes self dt 1 R C [m] = Ok r1 ->
  Forall (fun c => (0 <= c <= Z.of_nat C)%Z) (hd [] (fst r1)).
Proof.
  intros Hshape Hr.
  destruct (matrix_shape_ok_spec _ _ _ Hshape) as [Hm Hrows].
  rewrite Forall_forall in Hrows.
  pose proof (cond_num_boxes_error self dt 1 R C [m]) as Herr.
  destruct (static_error self R C) as [e |] eqn:Hstat; [congruence |].
  clear Herr. unfold static_error in Hstat.
  destruct (Nat.ltb_spec 0 C) as [HC | HC].
  - destruct (force_match_for_each_col self) eqn:Hf.
    + destruct (Nat.eqb_spec R 0) as [HR | HR]; [discriminate |].
      destruct (last_item (match_values self)) as [p |] eqn:Hp;
        [| discriminate].
      rewrite (@forced_matrix self dt R C m p) in Hr by (auto; lia).
      injection Hr as <-. simpl.
      apply Forall_forall. intros c Hc. apply in_map_iff in Hc.
      destruct Hc as (i & <- & Hi). apply in_seq in Hi.
      destruct (forced_mask R C m i) eqn:Hmask.
      * destruct (@forced_column_spec R C m i) as (Hle & _); [lia | auto |].
        lia.
      * assert (Hin : In (nth i m []) m) by (apply nth_In; lia).
        pose proof (@padded_argmax_range C _ (Hrows _ Hin)). lia.
    + unfold cond_num_boxes in Hr.
      replace (0 <? C) with true in Hr by (symmetry; apply Nat.ltb_lt; lia).
      rewrite (@non_empty_without_force self dt 1 R C [m]) in Hr
        by (auto; repeat constructor; exact Hm).
      injection Hr as <-. simpl.
      apply Forall_forall. intros c Hc. apply in_map_iff in Hc.
      destruct Hc as (row & <- & Hin). unfold row_column.
      pose proof (@padded_argmax_range C _ (Hrows _ Hin)). lia.
  - unfold cond_num_boxes in Hr.
    replace (0 <? C) with false in Hr by (symmetry; apply Nat.ltb_ge; lia).
    unfold _match_when_cols_are_empty in Hr. injection Hr as <-.
    simpl. apply Forall_forall. intros c Hc.
    apply repeat_spec in Hc. lia.
Qed.

(** X15. Whatever the layer and the entries, a matched column returned
    by [call] on a well-shaped input is never negative and never above
    [num_cols]; [num_cols] itself, the index of the column added inside,
    can be returned. *)
Theorem matched_columns_within_padded_range
        (self : t) (dt : Float.dtype) (s : similarity) (o : matches) :
  shape_ok s = true ->
  call self dt s = Ok o ->
  per_matrix (fun _ cols _ =>
                Forall (fun c => (0 <= c <= Z.of_nat (num_cols_of s))%Z) cols)
             s o.
Proof.
  intros Hs Hcall.
  destruct (shape_ok_matrices s Hs) as [Hlen Hms].
  destruct (@call_per_matrix self dt s
              (fun _ cols _ =>
                 Forall (fun c => (0 <= c <= Z.of_nat (num_cols_of s))%Z)
                        cols)
              (call_ok_static _ _ _ Hcall) Hlen) as (o' & Ho' & HP).
  - intros m r1 Hm Hr.
    now apply matrix_columns_range with (self := self) (dt := dt)
                                        (R := num_rows_of s) (m := m);
      [apply Hms |].
  - congruence.
Qed.

Lemma matched_columns_within_padded_range_witness :
  let self := Build [0%Z; 1%Z] [Float.NInf; tenth 5; Float.PInf] true in
  let s := Rank2 2 1 [[tenth 1]; [tenth 9]] in
  per_matrix (fun _ cols _ => Forall (fun c => (0 <= c <= 1)%Z) cols)
             s (Matches1 [1%Z; 0%Z] [1%Z; 1%Z]).
Proof.
  intros self s.
  apply (@matched_columns_within_padded_range self Float.float32 s);
    reflexivity.
Defined.

End MatcherExtras.

(* ================================================================== *)
(** * PaliGemmaBackbone: names and configuration *)
(* ================================================================== *)

Module BackboneExtras.
Import PaliGemmaBackbone.

Lemma append_cancel (p a b : string) :
  String.append p a = String.append p b -> a = b.
Proof.
  induction p as [| c p IH]; simpl; intros H; [exact H |].
  injection H as H. now apply IH.
Qed.

Lemma decoder_block_name_inj (i j : nat) :
  decoder_block_name i = decoder_block_name j -> i = j.
Proof.
  unfold decoder_block_name. intros H. apply append_cancel in H.
  apply DecimalNat.Unsigned.to_uint_inj.
  assert (E : Some (Nat.to_uint i) = Some (Nat.to_uint j)).
  { rewrite <- !NilEmpty.usu. now rewrite H. }
  now injection E.
Qed.

Example decoder_block_name_12 :
  decoder_block_name 0 = "decoder_block_0"%string
  /\ decoder_block_name 12 = "decoder_block_12"%string.
Proof. split; reflexivity. Qed.

Lemma even_mod2 (i : nat) : (i mod 2 =? 0) = Nat.even i.
Proof.
  apply eq_true_iff_eq.
  rewrite Nat.eqb_eq, Nat.even_spec, Nat.Div0.mod_divides.
  unfold Nat.Even. reflexivity.
Qed.

Lemma NoDup_map_injective (A B : Type) (f : A -> B) (l : list A) :
  (forall x y, f x = f y -> x = y) -> NoDup l -> NoDup (map f l).
Proof.
  intros Hinj. induction 1 as [| x l Hx Hl IH]; simpl; constructor; auto.
  intros Hin. apply in_map_iff in Hin. destruct Hin as (y & Hy & Hyin).
  apply Hinj in Hy. now subst.
Qed.

Lemma or_default_idempotent (x : option nat) (n : nat) :
  n <> 0 -> or_default (Some (or_default x n)) n = or_default x n.
Proof.
  intros Hn. destruct x as [[| k] |]; simpl; destruct n; congruence.
Qed.

Section Facts.

Variables real dtype_policy activation : Type.
Variable hp : hyperparameters real dtype_policy activation.

(** X12. The decoder blocks of the model carry pairwise distinct names,
    block [i] being ["decoder_block_<i>"]; with
    [use_sliding_window_attention] the blocks at even positions use the
    sliding window and those at odd positions do not, and without it none
    does. *)
Theorem decoder_blocks_named_and_alternating :
  let layers := transformer_layers (__init__ hp) in
  NoDup (map (@d_name real dtype_policy) layers)
  /\ forall i, i < num_layers hp ->
       exists layer,
         nth_error layers i = Some layer
         /\ d_name layer = decoder_block_name i
         /\ d_use_sliding_window_attention layer
            = use_sliding_window_attention hp && Nat.even i.
Proof.
  intros layers. unfold layers.
  rewrite BackboneProofs.transformer_layers_init. split.
  - rewrite map_map. simpl.
    apply NoDup_map_injective; [| apply seq_NoDup].
    intros i j. apply decoder_block_name_inj.
  - intros i Hi. exists (make_layer hp i). split; [| split].
    + rewrite nth_error_map, nth_error_seq.
      apply Nat.ltb_lt in Hi. now rewrite Hi.
    + reflexivity.
    + unfold make_layer. cbn [d_use_sliding_window_attention].
      now rewrite even_mod2.
Qed.

(** X13. Constructing from [get_config()] gives the sub-layers of the
    original arguments with [dtype] replaced by the entry of the base
    class's configuration ([None] when it has none), hence the same
    sub-layers when that entry is the constructor's [dtype]; the 25 keys
    this class writes are the same for the rebuilt model; and the
    configuration records the [vit_intermediate_dim] in use, 4304 when
    the argument was omitted or zero. *)
Theorem backbone_config_round_trip (super_dtype : option dtype_policy) :
  let config := get_config hp super_dtype in
  __init__ config = __init__ (with_dtype hp super_dtype)
  /\ (forall d, get_config config d = get_config hp d)
  /\ vit_intermediate_dim config
     = Some (or_default (vit_intermediate_dim hp) 4304)
  /\ with_dtype hp (dtype hp) = hp.
Proof.
  intros config.
  assert (Hvit : vit_intermediate_dim config
                 = Some (or_default (vit_intermediate_dim hp) 4304))
    by reflexivity.
  assert (Hor : or_default (vit_intermediate_dim config) 4304
                = or_default (vit_intermediate_dim hp) 4304).
  { rewrite Hvit. apply or_default_idempotent. discriminate. }
  split; [| split; [| split; [exact Hvit | now destruct hp]]].
  - unfold __init__. rewrite Hor. reflexivity.
  - intros d. unfold get_config at 1. rewrite Hor. reflexivity.
Qed.

End Facts.

End BackboneExtras.
